(** * Gitscovery: the repository provider and the interactive control

    A shallow embedding of [src/components/app/app.tsx]: [getRecentDate],
    the asynchronous [fetchRepos] run by the mount effect of [Button],
    [handleClick] and the [disabled] attribute; together with the parts of
    the JavaScript host they call: strings, [parseInt],
    [Number.prototype.toString], [Date], [JSON], [encodeURIComponent],
    [localStorage], [fetch], [Math.random] and [window.open].  The pointer
    handlers ([handleMouse], [handleTouch], [reset]) only move the button
    and are left out.

    Conventions.
    - A JavaScript string is the list of its UTF-16 code units ([list N]).
    - A JavaScript number that holds an integer is a [Z].  Every number the
      component computes with is an integer: clock readings, star counts,
      page numbers, issue counts, HTTP statuses.  Doubles hold integers
      exactly below 2^53, and the one comparison made on a number read from
      a string ([now - T < CACHE_DURATION]) has the same outcome on doubles
      and on integers for any clock reading below 2^53.
    - [NaN] and [undefined] are [None].
    - A thrown exception is a value of [error]; whether the promise returned
      by [fetchRepos] is fulfilled or rejected is recorded in the state.
    - A draw of [Math.random()] is a rational number; the functions that use
      one take it as an argument.  *)

From Stdlib Require Import ZArith NArith List Lia QArith Qround String Ascii Bool.
From stdpp Require Import gmap strings.
Import ListNotations.

Close Scope Q_scope.
Local Open Scope Z_scope.

(** ** JavaScript strings *)

Abbreviation jsstring := (list N).

(** The code units of an ASCII literal. *)
Fixpoint js (s : string) : jsstring :=
  match s with
  | EmptyString => []
  | String a s' => N_of_ascii a :: js s'
  end.

(** [Boolean(s)] for a value that is a string or [null]: the empty string
    and [null] are falsy. *)
Definition truthy (v : option jsstring) : bool :=
  match v with
  | Some (_ :: _) => true
  | _ => false
  end.

Definition code (a : ascii) : N := N_of_ascii a.

(** ** Numbers and strings *)

Module Number.

Definition digit_char (d : Z) : N := Z.to_N (48 + d).

(** Decimal digits of a non-negative integer, most significant first,
    pushed in front of [acc]. *)
Fixpoint digits_of (fuel : nat) (n : Z) (acc : jsstring) : jsstring :=
  match fuel with
  | O => acc
  | S f =>
      let acc' := digit_char (n mod 10) :: acc in
      if n <? 10 then acc' else digits_of f (n / 10) acc'
  end.

Definition digits (n : Z) : jsstring :=
  digits_of (S (Z.to_nat (Z.log2 n))) n [].

(** [Number.prototype.toString()] on an integer (radix 10).  Integers of
    magnitude 10^21 and more print in exponent notation in JavaScript and
    are outside this definition. *)
Definition toString (n : Z) : jsstring :=
  if n <? 0 then code "-" :: digits (- n) else digits n.

(** [StrWhiteSpaceChar]: WhiteSpace and LineTerminator code units. *)
Definition is_whitespace (c : N) : bool :=
  let c := Z.of_N c in
  ((9 <=? c) && (c <=? 13)) || (c =? 32) || (c =? 160) || (c =? 5760)
  || ((8192 <=? c) && (c <=? 8202)) || (c =? 8232) || (c =? 8233)
  || (c =? 8239) || (c =? 8287) || (c =? 12288) || (c =? 65279).

Fixpoint trim_start (s : jsstring) : jsstring :=
  match s with
  | c :: s' => if is_whitespace c then trim_start s' else s
  | [] => []
  end.

(** The value of a code unit as a digit in radix up to 36. *)
Definition digit_value (c : N) : option Z :=
  let c := Z.of_N c in
  if (48 <=? c) && (c <=? 57) then Some (c - 48)
  else if (97 <=? c) && (c <=? 122) then Some (c - 97 + 10)
  else if (65 <=? c) && (c <=? 90) then Some (c - 65 + 10)
  else None.

(** The longest prefix of radix-[R] digits, read as an integer; [None]
    when that prefix is empty. *)
Fixpoint digits_prefix (R : Z) (s : jsstring) (acc : Z) (seen : bool)
  : option Z :=
  let fin := if seen then Some acc else None in
  match s with
  | [] => fin
  | c :: s' =>
      match digit_value c with
      | Some d => if d <? R then digits_prefix R s' (acc * R + d) true else fin
      | None => fin
      end
  end.

(** [parseInt(s)] with the radix left undefined; [None] is [NaN]. *)
Definition parseInt (s : jsstring) : option Z :=
  let s := trim_start s in
  let '(sign, s) :=
    match s with
    | c :: s' =>
        if N.eqb c (code "-") then (-1, s')
        else if N.eqb c (code "+") then (1, s')
        else (1, s)
    | [] => (1, s)
    end in
  let '(R, s) :=
    match s with
    | c0 :: cx :: s' =>
        if N.eqb c0 (code "0") && (N.eqb cx (code "x") || N.eqb cx (code "X"))
        then (16, s') else (10, s)
    | _ => (10, s)
    end in
  option_map (Z.mul sign) (digits_prefix R s 0 false).

(** Left-pad the decimal digits of [n] with zeros to [width] places. *)
Definition pad (width : nat) (n : Z) : jsstring :=
  let d := digits n in
  repeat (code "0") (width - length d) ++ d.

End Number.

(** ** Dates

    Time values are milliseconds since the epoch, as in ECMAScript
    (sections "Time Values and Time Range" to "MakeDate").  The local time
    zone is the host's [LocalTZA]: a function giving the offset from UTC, in
    milliseconds, either at a UTC instant or for a local wall-clock reading,
    so that daylight saving is covered.  [TimeClip] is left out: the dates
    the component handles are a clock reading and the instant six months
    before it, both well inside the range of [Date]. *)

Module Date.

Definition msPerDay : Z := 86400000.

Definition Day (t : Z) : Z := t / msPerDay.
Definition TimeWithinDay (t : Z) : Z := t mod msPerDay.

Definition DaysInYear (y : Z) : Z :=
  if negb (y mod 4 =? 0) then 365
  else if negb (y mod 100 =? 0) then 366
  else if negb (y mod 400 =? 0) then 365
  else 366.

Definition DayFromYear (y : Z) : Z :=
  365 * (y - 1970) + (y - 1969) / 4 - (y - 1901) / 100 + (y - 1601) / 400.

(** [YearFromTime]: the largest year whose first day is not after the
    given day, found from an estimate that is off by at most one. *)
Definition YearFromDay (d : Z) : Z :=
  let y := 1970 + (d * 400) / 146097 in
  if d <? DayFromYear y then y - 1
  else if DayFromYear (y + 1) <=? d then y + 1
  else y.

Definition InLeapYear (y : Z) : Z := if DaysInYear y =? 366 then 1 else 0.

(** Day number within the year of the first day of month [m] (0..11). *)
Definition month_start (leap m : Z) : Z :=
  match m with
  | 0 => 0
  | 1 => 31
  | 2 => 59 + leap
  | 3 => 90 + leap
  | 4 => 120 + leap
  | 5 => 151 + leap
  | 6 => 181 + leap
  | 7 => 212 + leap
  | 8 => 243 + leap
  | 9 => 273 + leap
  | 10 => 304 + leap
  | _ => 334 + leap
  end.

(** [MonthFromTime] on the day within the year. *)
Definition month_of_yday (leap dwy : Z) : Z :=
  if dwy <? 31 then 0
  else if dwy <? 59 + leap then 1
  else if dwy <? 90 + leap then 2
  else if dwy <? 120 + leap then 3
  else if dwy <? 151 + leap then 4
  else if dwy <? 181 + leap then 5
  else if dwy <? 212 + leap then 6
  else if dwy <? 243 + leap then 7
  else if dwy <? 273 + leap then 8
  else if dwy <? 304 + leap then 9
  else if dwy <? 334 + leap then 10
  else 11.

Definition YearFromTime (t : Z) : Z := YearFromDay (Day t).
Definition DayWithinYear (t : Z) : Z := Day t - DayFromYear (YearFromTime t).
Definition MonthFromTime (t : Z) : Z :=
  month_of_yday (InLeapYear (YearFromTime t)) (DayWithinYear t).
Definition DateFromTime (t : Z) : Z :=
  DayWithinYear t
  - month_start (InLeapYear (YearFromTime t)) (MonthFromTime t) + 1.

Definition HourFromTime (t : Z) : Z := (t / 3600000) mod 24.
Definition MinFromTime (t : Z) : Z := (t / 60000) mod 60.
Definition SecFromTime (t : Z) : Z := (t / 1000) mod 60.
Definition msFromTime (t : Z) : Z := t mod 1000.

(** [MakeDay(year, month, date)]: months outside 0..11 carry into the
    year, and a [date] outside the month carries into the following days. *)
Definition MakeDay (year month date : Z) : Z :=
  let ym := year + month / 12 in
  let mn := month mod 12 in
  DayFromYear ym + month_start (InLeapYear ym) mn + date - 1.

Definition MakeDate (day time : Z) : Z := day * msPerDay + time.

(** [LocalTZA(t, isUTC)] of a host.  With [isUTC] true, [t] is a UTC instant
    and the result is the offset in force at that instant; with [isUTC]
    false, [t] is a local wall-clock reading and the result is the offset the
    host uses to read it (at a transition, the offset before it). *)
Definition zone : Type := Z -> bool -> Z.

(** [LocalTime(t) = t + LocalTZA(t, true)] and
    [UTC(t) = t - LocalTZA(t, false)]. *)
Definition LocalTime (tza : zone) (t : Z) : Z := t + tza t true.
Definition UTC (tza : zone) (t : Z) : Z := t - tza t false.

(** [Date.prototype.getMonth] and [Date.prototype.setMonth(month)], both in
    local time. *)
Definition getMonth (tza : zone) (date : Z) : Z := MonthFromTime (LocalTime tza date).

Definition setMonth (tza : zone) (date month : Z) : Z :=
  let t := LocalTime tza date in
  let newDate :=
    MakeDate (MakeDay (YearFromTime t) month (DateFromTime t)) (TimeWithinDay t) in
  UTC tza newDate.

(** The year of an ISO string: four digits from 0 to 9999, otherwise a sign
    and six digits. *)
Definition iso_year (y : Z) : jsstring :=
  if (0 <=? y) && (y <=? 9999) then Number.pad 4 y
  else (if y <? 0 then code "-" else code "+") :: Number.pad 6 (Z.abs y).

(** The calendar part [YYYY-MM-DD] of an ISO string, for year [y], month
    [m] (0..11) and day [d]. *)
Definition iso_date (y m d : Z) : jsstring :=
  iso_year y ++ code "-" :: Number.pad 2 (m + 1) ++ code "-" :: Number.pad 2 d.

(** [Date.prototype.toISOString]: the UTC fields of the time value. *)
Definition toISOString (t : Z) : jsstring :=
  iso_date (YearFromTime t) (MonthFromTime t) (DateFromTime t)
  ++ code "T" :: Number.pad 2 (HourFromTime t)
  ++ code ":" :: Number.pad 2 (MinFromTime t)
  ++ code ":" :: Number.pad 2 (SecFromTime t)
  ++ code "." :: Number.pad 3 (msFromTime t) ++ [code "Z"].

End Date.

(** [s.split(sep)[0]] for a one-character separator: the text before its
    first occurrence, the whole string when it does not occur. *)
Fixpoint split_head (sep : N) (s : jsstring) : jsstring :=
  match s with
  | [] => []
  | c :: s' => if N.eqb c sep then [] else c :: split_head sep s'
  end.

(** A zone that keeps one offset all year. *)
Definition fixed_offset (offset : Z) : Date.zone := fun _ _ => offset.

(** New York in 2025: five hours behind UTC, four from 9 March 07:00 UTC to
    2 November 06:00 UTC; on the wall clock, from 9 March 03:00 to
    2 November 02:00. *)
Definition new_york_2025 : Date.zone :=
  fun t isUTC =>
    let '(first, last) :=
      if isUTC then (1741503600000, 1762063200000)
      else (1741489200000, 1762048800000) in
    if (first <=? t) && (t <? last) then -14400000 else -18000000.

(** [getRecentDate] (app.tsx, lines 9-14).  [now] is the clock reading taken
    by [new Date()]. *)
Definition getRecentDate (tza : Date.zone) (now : Z) (months : Z) : jsstring :=
  let date := now in
  let date := Date.setMonth tza date (Date.getMonth tza date - months) in
  split_head (code "T") (Date.toISOString date).

(** ** JSON

    [JSON.parse] on arbitrary text (ECMA-404 grammar) and [JSON.stringify]
    on an array of strings, which is all the component serialises.  Numbers
    keep their literal text: the component never reads one from the cache. *)

Module JSON.

#[warnings="-register-all"]
Inductive json : Type :=
| JNull
| JBool (b : bool)
| JNumber (literal : jsstring)
| JString (s : jsstring)
| JArray (elements : list json)
| JObject (members : list (jsstring * json)).

(** *** Serialisation *)

Definition is_high_surrogate (c : N) : bool := (55296 <=? c)%N && (c <=? 56319)%N.
Definition is_low_surrogate (c : N) : bool := (56320 <=? c)%N && (c <=? 57343)%N.

Definition hex_digit (d : N) : N := if (d <? 10)%N then (48 + d)%N else (87 + d)%N.

Definition hex4 (c : N) : jsstring :=
  [hex_digit ((c / 4096) mod 16); hex_digit ((c / 256) mod 16);
   hex_digit ((c / 16) mod 16); hex_digit (c mod 16)]%N.

Definition UnicodeEscape (c : N) : jsstring := code "\" :: code "u" :: hex4 c.

(** The letter of the two-character escape of [c], when it has one. *)
Definition short_escape (c : N) : option N :=
  if (c =? 8)%N then Some (code "b")
  else if (c =? 9)%N then Some (code "t")
  else if (c =? 10)%N then Some (code "n")
  else if (c =? 12)%N then Some (code "f")
  else if (c =? 13)%N then Some (code "r")
  else if (c =? 34)%N then Some 34%N
  else if (c =? 92)%N then Some (code "\")
  else None.

(** The body of [QuoteJSONString].  [prev_high] tells that the previous code
    unit was a leading surrogate that pairs with this one; a surrogate
    without its partner is escaped. *)
Fixpoint quote_units (prev_high : bool) (s : jsstring) : jsstring :=
  match s with
  | [] => []
  | c :: s' =>
      let next_low := match s' with l :: _ => is_low_surrogate l | [] => false end in
      match short_escape c with
      | Some e => code "\" :: e :: quote_units false s'
      | None =>
          if (c <? 32)%N then UnicodeEscape c ++ quote_units false s'
          else if is_high_surrogate c then
            if next_low then c :: quote_units true s'
            else UnicodeEscape c ++ quote_units false s'
          else if is_low_surrogate c then
            if prev_high then c :: quote_units false s'
            else UnicodeEscape c ++ quote_units false s'
          else c :: quote_units false s'
      end
  end.

Definition QuoteJSONString (s : jsstring) : jsstring :=
  34%N :: quote_units false s ++ [34%N].

Fixpoint join_comma (parts : list jsstring) : jsstring :=
  match parts with
  | [] => []
  | [p] => p
  | p :: ps => p ++ code "," :: join_comma ps
  end.

(** [JSON.stringify(a)] for an array of strings [a]. *)
Definition stringify (a : list jsstring) : jsstring :=
  code "[" :: join_comma (map QuoteJSONString a) ++ [code "]"].

(** *** Parsing *)

Definition is_ws (c : N) : bool :=
  (c =? 9)%N || (c =? 10)%N || (c =? 13)%N || (c =? 32)%N.

Fixpoint skip_ws (s : jsstring) : jsstring :=
  match s with
  | c :: s' => if is_ws c then skip_ws s' else s
  | [] => []
  end.

Definition hex_value (c : N) : option N :=
  if (48 <=? c)%N && (c <=? 57)%N then Some (c - 48)%N
  else if (97 <=? c)%N && (c <=? 102)%N then Some (c - 87)%N
  else if (65 <=? c)%N && (c <=? 70)%N then Some (c - 55)%N
  else None.

Definition unhex4 (h1 h2 h3 h4 : N) : option N :=
  match hex_value h1, hex_value h2, hex_value h3, hex_value h4 with
  | Some a, Some b, Some c, Some d => Some (a * 4096 + b * 256 + c * 16 + d)%N
  | _, _, _, _ => None
  end.

Definition unescape (e : N) : option N :=
  if (e =? 34)%N then Some 34%N
  else if (e =? code "\")%N then Some 92%N
  else if (e =? code "/")%N then Some 47%N
  else if (e =? code "b")%N then Some 8%N
  else if (e =? code "f")%N then Some 12%N
  else if (e =? code "n")%N then Some 10%N
  else if (e =? code "r")%N then Some 13%N
  else if (e =? code "t")%N then Some 9%N
  else None.

Definition push (c : N) (r : option (jsstring * jsstring)) : option (jsstring * jsstring) :=
  match r with
  | Some (s, rest) => Some (c :: s, rest)
  | None => None
  end.

(** A string literal after its opening quote: the decoded string and the
    text after the closing quote. *)
Fixpoint parse_string_body (s : jsstring) : option (jsstring * jsstring) :=
  match s with
  | [] => None
  | c :: r =>
      if (c =? 34)%N then Some ([], r)
      else if (c =? code "\")%N then
        match r with
        | [] => None
        | e :: r1 =>
            if (e =? code "u")%N then
              match r1 with
              | h1 :: h2 :: h3 :: h4 :: r2 =>
                  match unhex4 h1 h2 h3 h4 with
                  | Some u => push u (parse_string_body r2)
                  | None => None
                  end
              | _ => None
              end
            else
              match unescape e with
              | Some u => push u (parse_string_body r1)
              | None => None
              end
        end
      else if (c <? 32)%N then None
      else push c (parse_string_body r)
  end.

Definition is_digit (c : N) : bool := (48 <=? c)%N && (c <=? 57)%N.

Fixpoint take_digits (s : jsstring) : jsstring * jsstring :=
  match s with
  | c :: r =>
      if is_digit c then let '(ds, r') := take_digits r in (c :: ds, r')
      else ([], s)
  | [] => ([], [])
  end.

(** A number literal: [-? int frac? exp?]. *)
Definition parse_number (s : jsstring) : option (jsstring * jsstring) :=
  let '(sign, s) :=
    match s with
    | c :: r => if (c =? code "-")%N then ([c], r) else ([], s)
    | [] => ([], s)
    end in
  match s with
  | c :: r =>
      let int_part :=
        if (c =? code "0")%N then Some ([c], r)
        else if is_digit c then let '(ds, r') := take_digits r in Some (c :: ds, r')
        else None in
      match int_part with
      | None => None
      | Some (ip, r) =>
          let frac_part :=
            match r with
            | p :: r1 =>
                if (p =? code ".")%N then
                  match take_digits r1 with
                  | ([], _) => None
                  | (ds, r2) => Some (p :: ds, r2)
                  end
                else Some ([], r)
            | [] => Some ([], r)
            end in
          match frac_part with
          | None => None
          | Some (fp, r) =>
              let exp_part :=
                match r with
                | e :: r1 =>
                    if (e =? code "e")%N || (e =? code "E")%N then
                      let '(sg, r2) :=
                        match r1 with
                        | g :: r2 =>
                            if (g =? code "+")%N || (g =? code "-")%N
                            then ([g], r2) else ([], r1)
                        | [] => ([], r1)
                        end in
                      match take_digits r2 with
                      | ([], _) => None
                      | (ds, r3) => Some (e :: sg ++ ds, r3)
                      end
                    else Some ([], r)
                | [] => Some ([], r)
                end in
              match exp_part with
              | None => None
              | Some (ep, r) => Some (sign ++ ip ++ fp ++ ep, r)
              end
          end
      end
  | [] => None
  end.

Fixpoint strip_prefix (p s : jsstring) : option jsstring :=
  match p, s with
  | [], _ => Some s
  | a :: p', b :: s' => if (a =? b)%N then strip_prefix p' s' else None
  | _ :: _, [] => None
  end.

(** A value, the elements of an array after the first bracket, and the
    members of an object after the first brace.  Every call spends one unit
    of [fuel]; see [parse] for the amount given. *)
Fixpoint parse_value (fuel : nat) (s : jsstring) : option (json * jsstring) :=
  match fuel with
  | O => None
  | S f =>
      match skip_ws s with
      | [] => None
      | c :: r =>
          if (c =? 34)%N then
            match parse_string_body r with
            | Some (str, r') => Some (JString str, r')
            | None => None
            end
          else if (c =? code "[")%N then
            match skip_ws r with
            | c' :: r' =>
                if (c' =? code "]")%N then Some (JArray [], r')
                else
                  match parse_elements f r with
                  | Some (vs, r'') => Some (JArray vs, r'')
                  | None => None
                  end
            | [] => None
            end
          else if (c =? code "{")%N then
            match skip_ws r with
            | c' :: r' =>
                if (c' =? code "}")%N then Some (JObject [], r')
                else
                  match parse_members f r with
                  | Some (ms, r'') => Some (JObject ms, r'')
                  | None => None
                  end
            | [] => None
            end
          else if (c =? code "t")%N then
            option_map (pair (JBool true)) (strip_prefix (js "rue") r)
          else if (c =? code "f")%N then
            option_map (pair (JBool false)) (strip_prefix (js "alse") r)
          else if (c =? code "n")%N then
            option_map (pair JNull) (strip_prefix (js "ull") r)
          else
            match parse_number (c :: r) with
            | Some (lit, r') => Some (JNumber lit, r')
            | None => None
            end
      end
  end
with parse_elements (fuel : nat) (s : jsstring) : option (list json * jsstring) :=
  match fuel with
  | O => None
  | S f =>
      match parse_value f s with
      | None => None
      | Some (v, r) =>
          match skip_ws r with
          | c :: r' =>
              if (c =? code ",")%N then
                match parse_elements f r' with
                | Some (vs, r'') => Some (v :: vs, r'')
                | None => None
                end
              else if (c =? code "]")%N then Some ([v], r')
              else None
          | [] => None
          end
      end
  end
with parse_members (fuel : nat) (s : jsstring)
  : option (list (jsstring * json) * jsstring) :=
  match fuel with
  | O => None
  | S f =>
      match skip_ws s with
      | q :: r0 =>
          if (q =? 34)%N then
            match parse_string_body r0 with
            | None => None
            | Some (k, r1) =>
                match skip_ws r1 with
                | colon :: r2 =>
                    if (colon =? code ":")%N then
                      match parse_value f r2 with
                      | None => None
                      | Some (v, r3) =>
                          match skip_ws r3 with
                          | c :: r4 =>
                              if (c =? code ",")%N then
                                match parse_members f r4 with
                                | Some (ms, r5) => Some ((k, v) :: ms, r5)
                                | None => None
                                end
                              else if (c =? code "}")%N then Some ([(k, v)], r4)
                              else None
                          | [] => None
                          end
                      end
                    else None
                | [] => None
                end
            end
          else None
      | [] => None
      end
  end.

(** [JSON.parse(text)]; [None] is a [SyntaxError].  A nested call consumes
    at least one code unit for every two units of fuel, so twice the length
    of the text is enough fuel. *)
Definition parse (text : jsstring) : option json :=
  match parse_value (2 * length text + 2) text with
  | Some (v, r) => match skip_ws r with [] => Some v | _ :: _ => None end
  | None => None
  end.

End JSON.

(** The value read back from the cache has the static type [Array<string>]
    in the component; [as_string_array] tells whether a parsed value really
    is one. *)
Fixpoint as_string_array_elements (l : list JSON.json) : option (list jsstring) :=
  match l with
  | [] => Some []
  | JSON.JString s :: l' =>
      match as_string_array_elements l' with
      | Some ss => Some (s :: ss)
      | None => None
      end
  | _ => None
  end.

Definition as_string_array (v : JSON.json) : option (list jsstring) :=
  match v with
  | JSON.JArray l => as_string_array_elements l
  | _ => None
  end.

(** ** URI encoding *)

Module URI.

Definition is_unreserved (c : N) : bool :=
  let c := Z.of_N c in
  ((48 <=? c) && (c <=? 57)) || ((65 <=? c) && (c <=? 90))
  || ((97 <=? c) && (c <=? 122))
  || existsb (Z.eqb c) [45; 95; 46; 33; 126; 42; 39; 40; 41].

Definition HEX (d : N) : N := if (d <? 10)%N then (48 + d)%N else (55 + d)%N.

Definition percent (byte : N) : jsstring :=
  [code "%"; HEX (byte / 16); HEX (byte mod 16)]%N.

(** The UTF-8 octets of a code point. *)
Definition utf8 (cp : N) : list N :=
  (if cp <? 128 then [cp]
   else if cp <? 2048 then [192 + cp / 64; 128 + cp mod 64]
   else if cp <? 65536 then
     [224 + cp / 4096; 128 + (cp / 64) mod 64; 128 + cp mod 64]
   else
     [240 + cp / 262144; 128 + (cp / 4096) mod 64; 128 + (cp / 64) mod 64;
      128 + cp mod 64])%N.

Definition escape (cp : N) : jsstring := concat (map percent (utf8 cp)).

Definition prepend (p : jsstring) (r : option jsstring) : option jsstring :=
  match r with
  | Some s => Some (p ++ s)
  | None => None
  end.

(** [encodeURIComponent(s)]; [None] is the [URIError] raised on a surrogate
    without its partner. *)
Fixpoint encodeURIComponent (s : jsstring) : option jsstring :=
  match s with
  | [] => Some []
  | c :: s' =>
      if is_unreserved c then prepend [c] (encodeURIComponent s')
      else if JSON.is_high_surrogate c then
        match s' with
        | l :: s'' =>
            if JSON.is_low_surrogate l then
              prepend (escape (65536 + (c - 55296) * 1024 + (l - 56320))%N)
                      (encodeURIComponent s'')
            else None
        | [] => None
        end
      else if JSON.is_low_surrogate c then None
      else prepend (escape c) (encodeURIComponent s')
  end.

End URI.

(** ** Random choice *)

(** [Math.floor(r * n)] for a draw [r] of [Math.random()], a number with
    [0 <= r < 1], taken here as a rational and multiplied exactly.  The code
    rounds the product to a double before taking the floor, which moves a
    product just below an integer onto it (the double nearest to 0.6 gives 6
    in the code and 5 here); the results range over [0, n) either way. *)
Definition floor_scaled (r : Q) (n : Z) : Z := Qfloor (r * inject_Z n)%Q.

(** Modelled from the spec: [pick] of [helpers/random], which is imported by
    [app.tsx] and not part of the sources at hand.  The spec has it "select
    one entry uniformly at random": the entry at index
    [Math.floor(Math.random() * arr.length)].  On an empty array (or a draw
    outside the unit interval) the index names no entry and the result is
    [undefined]. *)
Definition pick {A : Type} (arr : list A) (r : Q) : option A :=
  let i := floor_scaled r (Z.of_nat (length arr)) in
  if i <? 0 then None else arr !! Z.to_nat i.

(** ** The component and its host *)

Definition CACHE_KEY : string := "gitscovery_repos".
Definition CACHE_TIMESTAMP_KEY : string := "gitscovery_timestamp".
Definition CACHE_DURATION : Z := 1000 * 60 * 30.

(** What the host is configured with: the local time zone and whether
    [window.open] exists. *)
Record host : Type := Host { tza : Date.zone; has_window_open : bool }.

Inductive error : Type :=
| JsonSyntaxError   (* JSON.parse or res.json() *)
| NetworkError      (* fetch rejects *)
| ItemsTypeError    (* json.items.filter(...) on a body without an items array *)
| GitHubApiError    (* new Error('GitHub API Error') *)
| URIError.

Inductive log_entry : Type :=
| Warn (message : jsstring)
| LogError (e : error).

(** Items of a search response, at the types the API documents. *)
Record item : Type := Item { open_issues_count : Z; html_url : jsstring }.

(** What [res.json()] followed by [json.items.filter(...).map(...)] meets. *)
Inductive body : Type :=
| NotJson                       (* res.json() rejects *)
| NoItems                       (* JSON, but items is missing or not an array *)
| Items (items : list item).

(** Where the asynchronous [fetchRepos] stands.  [AwaitingFetch] keeps the
    local [cached] captured before the request was sent. *)
Inductive task : Type :=
| NotStarted
| AwaitingFetch (cached : option jsstring)
| AwaitingJson
| Fulfilled
| Rejected (e : error)
| IllTyped.  (* setRepos was handed a value that is not an Array<string> *)

Record state : Type := State {
  repos : list jsstring;                 (* useState<Array<string>>([]) *)
  isLoading : bool;                      (* useState(false) *)
  storage : gmap string jsstring;        (* localStorage *)
  console : list log_entry;              (* console.warn / console.error *)
  requests : list jsstring;              (* URLs handed to fetch *)
  opened : list (option jsstring * jsstring);  (* window.open(url, target) *)
  fetching : task
}.

Definition setRepos (l : list jsstring) (s : state) : state :=
  State l (isLoading s) (storage s) (console s) (requests s) (opened s) (fetching s).
Definition setIsLoading (b : bool) (s : state) : state :=
  State (repos s) b (storage s) (console s) (requests s) (opened s) (fetching s).
Definition setItem (k : string) (v : jsstring) (s : state) : state :=
  State (repos s) (isLoading s) (<[k := v]> (storage s)) (console s) (requests s)
        (opened s) (fetching s).
Definition log (e : log_entry) (s : state) : state :=
  State (repos s) (isLoading s) (storage s) (console s ++ [e]) (requests s)
        (opened s) (fetching s).
Definition send (url : jsstring) (s : state) : state :=
  State (repos s) (isLoading s) (storage s) (console s) (requests s ++ [url])
        (opened s) (fetching s).
Definition window_open (url : option jsstring) (target : jsstring) (s : state) : state :=
  State (repos s) (isLoading s) (storage s) (console s) (requests s)
        (opened s ++ [(url, target)]) (fetching s).
Definition settle (t : task) (s : state) : state :=
  State (repos s) (isLoading s) (storage s) (console s) (requests s) (opened s) t.

(** The component as first rendered, over whatever the store holds. *)
Definition initial (store : gmap string jsstring) : state :=
  State [] false store [] [] [] NotStarted.

(** *** The query (app.tsx, lines 104-120) *)

Record query : Type := Query {
  recentDate : jsstring;
  minStars : option Z;       (* [None]: pick returned undefined *)
  maxStars : option Z;       (* [None]: NaN *)
  randomPage : Z
}.

Definition build_query (h : host) (now : Z) (r_stars r_page : Q) : query :=
  let recentDate := getRecentDate (tza h) now 6 in
  let minStars := pick [500; 1000; 2000; 5000] r_stars in
  let maxStars := option_map (fun m => m + 10000) minStars in
  let randomPage := floor_scaled r_page 10 + 1 in
  Query recentDate minStars maxStars randomPage.

(** A number, possibly [undefined] or [NaN], inside a template literal. *)
Definition show (v : option Z) (absent : string) : jsstring :=
  match v with
  | Some n => Number.toString n
  | None => js absent
  end.

Definition queryParts (q : query) : list jsstring :=
  [ js "stars:" ++ show (minStars q) "undefined" ++ js ".." ++ show (maxStars q) "NaN";
    js "pushed:>" ++ recentDate q;
    js "archived:false";
    js "is:public" ].

(** [parts.join(' ')] *)
Fixpoint join_space (parts : list jsstring) : jsstring :=
  match parts with
  | [] => []
  | [p] => p
  | p :: ps => p ++ code " " :: join_space ps
  end.

Definition url_of (q : query) : option jsstring :=
  match URI.encodeURIComponent (join_space (queryParts q)) with
  | Some text =>
      Some (js "https://api.github.com/search/repositories?q=" ++ text
            ++ js "&sort=updated&order=desc&per_page=100&page="
            ++ Number.toString (randomPage q))
  | None => None
  end.

(** *** [fetchRepos] (app.tsx, lines 88-157)

    The asynchronous function runs in three stretches, each of them
    uninterrupted: from its call to [await fetch(url)], from the settling of
    that request to [await res.json()], and from the settling of the body to
    the end.  Writes to [localStorage] are taken to succeed (no quota). *)

Definition isCacheValid (now : Z) (timestamp : option jsstring) : bool :=
  truthy timestamp &&
  match timestamp with
  | Some ts =>
      match Number.parseInt ts with
      | Some T => now - T <? CACHE_DURATION
      | None => false
      end
  | None => false
  end.

Inductive parsed_cache : Type :=
| ParseThrows
| NotStrings
| Strings (l : list jsstring).

(** [JSON.parse(cached)], and whether the value fits [setRepos].  A [null]
    argument is converted to the text [null]. *)
Definition parse_cached (cached : option jsstring) : parsed_cache :=
  match JSON.parse (default (js "null") cached) with
  | None => ParseThrows
  | Some v =>
      match as_string_array v with
      | Some l => Strings l
      | None => NotStrings
      end
  end.

(** [catch (error) { console.error(error) }] and
    [finally { setIsLoading(false) }], after which the promise is fulfilled. *)
Definition catch (e : error) (s : state) : state := log (LogError e) s.
Definition finally (s : state) : state := settle Fulfilled (setIsLoading false s).

(** Lines 92-123: up to the first [await]. *)
Definition mount (h : host) (now_check now_query : Z) (r_stars r_page : Q)
                 (s : state) : state :=
  match fetching s with
  | NotStarted =>
      let cached := storage s !! CACHE_KEY in
      let timestamp := storage s !! CACHE_TIMESTAMP_KEY in
      if truthy cached && isCacheValid now_check timestamp then
        match parse_cached cached with
        | Strings l => settle Fulfilled (setRepos l s)
        | ParseThrows => settle (Rejected JsonSyntaxError) s
        | NotStrings => settle IllTyped s
        end
      else
        let s := setIsLoading true s in
        match url_of (build_query h now_query r_stars r_page) with
        | Some url => settle (AwaitingFetch cached) (send url s)
        | None => settle (Rejected URIError) s
        end
  | _ => s
  end.

Definition res_ok (status : Z) : bool := (200 <=? status) && (status <=? 299).

(** Lines 123-135: the request settles; [None] is a rejected [fetch]. *)
Definition fetch_settled (res : option Z) (s : state) : state :=
  match fetching s with
  | AwaitingFetch cached =>
      match res with
      | None => finally (catch NetworkError s)
      | Some status =>
          if res_ok status then settle AwaitingJson s
          else if ((status =? 403) || (status =? 429)) && truthy cached then
            let s := log (Warn (js "Rate limited, using cached data.")) s in
            match parse_cached cached with
            | Strings l => finally (setRepos l s)
            | ParseThrows => finally (catch JsonSyntaxError s)
            | NotStrings => settle IllTyped (setIsLoading false s)
            end
          else finally (catch GitHubApiError s)
      end
  | _ => s
  end.

(** Lines 137-156: the body settles.  [now] is the clock reading taken by
    [Date.now()] on line 151. *)
Definition json_settled (b : body) (now : Z) (s : state) : state :=
  match fetching s with
  | AwaitingJson =>
      match b with
      | NotJson => finally (catch JsonSyntaxError s)
      | NoItems => finally (catch ItemsTypeError s)
      | Items items =>
          let validUrls :=
            map html_url (List.filter (fun item => 0 <? open_issues_count item) items) in
          let s := setRepos validUrls s in
          let s := setItem CACHE_KEY (JSON.stringify validUrls) s in
          let s := setItem CACHE_TIMESTAMP_KEY (Number.toString now) s in
          finally s
      end
  | _ => s
  end.

(** What the network does with the one request of a run. *)
Inductive fetch_result : Type :=
| FetchFails
| Response (status : Z) (b : body).

(** Everything a complete run of [fetchRepos] reads from its environment. *)
Record run : Type := Run {
  now_check : Z;        (* Date.now() on line 95 *)
  now_query : Z;        (* new Date() on line 10 *)
  r_stars : Q;          (* Math.random() inside pick, line 108 *)
  r_page : Q;           (* Math.random() on line 118 *)
  result : fetch_result;
  now_store : Z         (* Date.now() on line 151 *)
}.

(** [fetchRepos] from its call to the settling of its promise. *)
Definition fetchRepos (h : host) (e : run) (s : state) : state :=
  let s := mount h (now_check e) (now_query e) (r_stars e) (r_page e) s in
  match result e with
  | FetchFails => fetch_settled None s
  | Response status b => json_settled b (now_store e) (fetch_settled (Some status) s)
  end.

(** *** The button (app.tsx, lines 162-172) *)

Definition handleClick (h : host) (r : Q) (s : state) : state :=
  let randomRepo := pick (repos s) r in
  if has_window_open h then window_open randomRepo (js "_blank") s else s.

Definition disabled (s : state) : bool :=
  isLoading s || (Z.of_nat (length (repos s)) =? 0).

Definition enabled (s : state) : bool := negb (disabled s).

(** A click on the button: a disabled button dispatches no click event. *)
Definition click (h : host) (r : Q) (s : state) : state :=
  if disabled s then s else handleClick h r s.

(** *** The component over time *)

Inductive event : Type :=
| Mount (now_check now_query : Z) (r_stars r_page : Q)
| FetchSettled (res : option Z)
| JsonSettled (b : body) (now : Z)
| Click (r : Q).

Definition step (h : host) (s : state) (ev : event) : state :=
  match ev with
  | Mount n1 n2 r1 r2 => mount h n1 n2 r1 r2 s
  | FetchSettled res => fetch_settled res s
  | JsonSettled b n => json_settled b n s
  | Click r => click h r s
  end.

Definition run_events (h : host) (s : state) (evs : list event) : state :=
  fold_left (step h) evs s.


(** The text on the button (app.tsx, line 211). *)
Definition label (s : state) : jsstring :=
  if isLoading s then js "[Loading]" else js "[New Project]".

(** ** Auxiliary predicates *)

Definition is_decimal (c : N) : Prop := (48 <= c <= 57)%N.

(** Strings of code units below 128. *)
Definition is_ascii (s : jsstring) : bool := forallb (fun c => (c <? 128)%N) s.

(** ** Calendar dates *)

(** The calendar date (year, month 0..11, day of month) of a time value. *)
Definition civil (t : Z) : Z * Z * Z :=
  (Date.YearFromTime t, Date.MonthFromTime t, Date.DateFromTime t).

Definition DaysInMonth (y m : Z) : Z :=
  match m with
  | 1 => 28 + Date.InLeapYear y
  | 3 | 5 | 8 | 10 => 30
  | _ => 31
  end.

(** The date the spec asks for: the same day of the month, [k] calendar
    months before. *)
Definition months_before (k : Z) (date : Z * Z * Z) : Z * Z * Z :=
  let '(y, m, d) := date in
  let i := 12 * y + m - k in
  (i / 12, i mod 12, d).

(** That day of the month exists in that month. *)
Definition day_exists (date : Z * Z * Z) : Prop :=
  let '(y, m, d) := date in 1 <= d <= DaysInMonth y m.

(** The code units of the calendar part of an ISO string. *)
Definition date_char (c : N) : Prop := is_decimal c \/ c = code "-" \/ c = code "+".

(** ** Random draws *)

(** A value [Math.random()] can return. *)
Definition unit_draw (r : Q) : Prop := (0 <= r)%Q /\ (r < 1)%Q.

(** The [i]-th of [n] equal parts of the unit interval. *)
Definition in_slot (i n : nat) (r : Q) : Prop :=
  (inject_Z (Z.of_nat i) / inject_Z (Z.of_nat n) <= r)%Q
  /\ (r < inject_Z (Z.of_nat i + 1) / inject_Z (Z.of_nat n))%Q.

(** ** What holds of the component whenever an event is dispatched *)

Definition awaiting (t : task) : bool :=
  match t with
  | NotStarted | AwaitingFetch _ | AwaitingJson => true
  | _ => false
  end.

Definition consistent (s : state) : Prop :=
  (isLoading s = true -> repos s = [])
  /\ (awaiting (fetching s) = true -> repos s = [])
  /\ (fetching s = NotStarted -> isLoading s = false).

(** ** Reading the cache and the response *)

(** The condition of line 97: [cached && isCacheValid]. *)
Definition cache_hit (store : gmap string jsstring) (now : Z) : bool :=
  truthy (store !! CACHE_KEY) && isCacheValid now (store !! CACHE_TIMESTAMP_KEY).

(** The list the spec asks for: the [html_url] of every item with an open
    issue, in the order of the items. *)
Fixpoint urls_with_open_issues (items : list item) : list jsstring :=
  match items with
  | [] => []
  | i :: rest =>
      if 0 <? open_issues_count i
      then html_url i :: urls_with_open_issues rest
      else urls_with_open_issues rest
  end.

(** A run whose request fails outside the rate-limit fallback: the network
    fails, the status is an error other than 403/429 with a cached list,
    or the body of a successful response is unusable. *)
Definition unhandled_failure (e : run) (cached : option jsstring) : bool :=
  match result e with
  | FetchFails => true
  | Response status b =>
      if res_ok status then
        match b with
        | Items _ => false
        | NotJson | NoItems => true
        end
      else negb (((status =? 403) || (status =? 429)) && truthy cached)
  end.

(** ** Sample data for the worked examples *)

Definition sample_host : host := Host (fixed_offset 0) true.
(** A host in New York, with daylight saving. *)
Definition new_york_host : host := Host new_york_2025 true.

Definition sample_list : list jsstring := [js "https://github.com/a/a"].

(** A store holding [sample_list], written at time [written]. *)
Definition sample_store (written : Z) : gmap string jsstring :=
  <[CACHE_TIMESTAMP_KEY := Number.toString written]>
    (<[CACHE_KEY := JSON.stringify sample_list]> ∅).

(** A run started on 2025-09-15 at 12:00:00 UTC. *)
Definition sample_run (res : fetch_result) : run :=
  Run 1757937600000 1757937600000 (1 # 2) (3 # 10) res 1757937600500.

Definition sample_items : list item :=
  [Item 0 (js "u1"); Item 3 (js "u2")].

(** ** Histories of events *)

(** The request or its body is pending. *)
Definition in_flight (t : task) : bool :=
  match t with
  | AwaitingFetch _ | AwaitingJson => true
  | _ => false
  end.

Definition is_click (ev : event) : bool :=
  match ev with
  | Click _ => true
  | _ => false
  end.

(** The number of clicks in a history. *)
Definition clicks (evs : list event) : nat := length (List.filter is_click evs).


(** A run over the store left by an earlier one. *)
Definition remount (h : host) (e : run) (earlier : state) : state :=
  fetchRepos h e (initial (storage earlier)).

(** The number of days from the first of January 1970 to the first day of
    month [m] (0..11) of year [y]. *)
Definition first_of_month (y m : Z) : Z :=
  Date.DayFromYear y + Date.month_start (Date.InLeapYear y) m.

(** The code units of a calendar date with a four-digit year. *)
Definition plain_date_char (c : N) : Prop := is_decimal c \/ c = code "-".

(** The address of a search for repositories with [m] to [m + 10000] stars
    pushed after [date], page [p]. *)
Definition search_url (m : Z) (date : jsstring) (p : Z) : jsstring :=
  js "https://api.github.com/search/repositories?q="
  ++ (js "stars%3A" ++ Number.toString m ++ js ".." ++ Number.toString (m + 10000)
      ++ js "%20pushed%3A%3E" ++ date ++ js "%20archived%3Afalse%20is%3Apublic")
  ++ js "&sort=updated&order=desc&per_page=100&page=" ++ Number.toString p.

(** At most one request, and none before the effect has run. *)
Definition sent_once (s : state) : Prop :=
  (fetching s = NotStarted -> requests s = [])
  /\ (length (requests s) <= 1)%nat.

(** The loading flag is on exactly while something is pending. *)
Definition loading_tracks (s : state) : Prop := isLoading s = in_flight (fetching s).



(** ** Tactics *)

(** Decide the comparisons of code units that a goal branches on. *)
Ltac split_tests :=
  repeat match goal with
    | |- context [N.eqb ?a ?b] => destruct (N.eqb_spec a b)
    | |- context [N.ltb ?a ?b] => destruct (N.ltb_spec a b)
    | |- context [N.leb ?a ?b] => destruct (N.leb_spec a b)
    end;
  cbn [andb orb negb].


Ltac split_month m :=
  let H := fresh in
  assert (H : m = 0 \/ m = 1 \/ m = 2 \/ m = 3 \/ m = 4 \/ m = 5 \/ m = 6
              \/ m = 7 \/ m = 8 \/ m = 9 \/ m = 10 \/ m = 11) by lia;
  repeat (destruct H as [H|H]; [subst m|]); [..|subst m].


Ltac split_ltb :=
  repeat match goal with
    | |- context [?a <? ?b] => destruct (Z.ltb_spec a b)
    end.


(** Unfold the calendar tables. *)
Ltac calendar :=
  cbv beta iota delta [DaysInMonth Date.month_start Date.month_of_yday] in *.


(** Compute the fields of a state built by the setters. *)
Ltac fields :=
  cbn [repos isLoading storage console requests opened fetching settle setRepos
       setIsLoading setItem log send window_open finally catch] in *.


Ltac close_consistent :=
  unfold consistent; fields; repeat split; intros; cbn [awaiting] in *;
  first [assumption | congruence].

(** * Worked examples *)

Example parseInt_plain : Number.parseInt (js "1700000000000") = Some 1700000000000.
Proof. reflexivity. Qed.
Example parseInt_prefix : Number.parseInt (js "  -42px") = Some (-42).
Proof. reflexivity. Qed.
Example parseInt_hex : Number.parseInt (js "0x1f") = Some 31.
Proof. reflexivity. Qed.
Example parseInt_nan : Number.parseInt (js "soon") = None.
Proof. reflexivity. Qed.
Example parseInt_empty_hex : Number.parseInt (js "0x") = None.
Proof. reflexivity. Qed.
Example toString_now : Number.toString 1700000000000 = js "1700000000000".
Proof. reflexivity. Qed.
Example toString_neg : Number.toString (-15) = js "-15".
Proof. reflexivity. Qed.
Example iso_epoch : Date.toISOString 0 = js "1970-01-01T00:00:00.000Z".
Proof. reflexivity. Qed.
Example iso_2026 : Date.toISOString 1793676645123 = js "2026-11-03T03:30:45.123Z".
Proof. vm_compute. reflexivity. Qed.
Example recent_mid_month : getRecentDate (fixed_offset 0) 1757937600000 6 = js "2025-03-15".
Proof. vm_compute. reflexivity. Qed.
Example recent_january : getRecentDate (fixed_offset 0) 1768478400000 6 = js "2025-07-15".
Proof. vm_compute. reflexivity. Qed.
Example stringify_two :
  JSON.stringify [js "https://github.com/a/a"; js "u2"]
  = js "[" ++ 34%N :: js "https://github.com/a/a" ++ 34%N :: js ","
    ++ 34%N :: js "u2" ++ 34%N :: js "]".
Proof. reflexivity. Qed.
Example parse_spaced :
  JSON.parse (js " [ " ++ 34%N :: js "aA\n" ++ 34%N :: js " , 1.5e3, {} ] ")
  = Some (JSON.JArray [JSON.JString [97; 65; 10]%N; JSON.JNumber (js "1.5e3");
                       JSON.JObject []]).
Proof. reflexivity. Qed.
Example parse_trailing_comma : JSON.parse (js "[1,]") = None.
Proof. reflexivity. Qed.
Example encode_query :
  URI.encodeURIComponent (js "stars:500..10500 pushed:>2025-03-15")
  = Some (js "stars%3A500..10500%20pushed%3A%3E2025-03-15").
Proof. reflexivity. Qed.
Example encode_e_acute : URI.encodeURIComponent [233%N] = Some (js "%C3%A9").
Proof. reflexivity. Qed.

(** A list cached five minutes ago is adopted without a request, and a click
    opens its entry. *)
Example mount_with_fresh_cache :
  let s := fetchRepos sample_host (sample_run FetchFails)
                      (initial (sample_store 1757937300000)) in
  repos s = [js "https://github.com/a/a"] /\ requests s = [] /\ enabled s = true
  /\ opened (click sample_host (1 # 3) s)
     = [(Some (js "https://github.com/a/a"), js "_blank")].
Proof. vm_compute. repeat split; reflexivity. Qed.

(** With an empty store, a response of two items keeps the one that has an
    open issue, and that list is what the store holds afterwards. *)
Example mount_without_cache :
  let s := fetchRepos sample_host (sample_run (Response 200 (Items sample_items)))
                      (initial ∅) in
  repos s = [js "u2"]
  /\ storage s !! CACHE_KEY = Some (JSON.stringify [js "u2"])
  /\ storage s !! CACHE_TIMESTAMP_KEY = Some (js "1757937600500")
  /\ requests s
     = [js "https://api.github.com/search/repositories?q=stars%3A2000..12000%20pushed%3A%3E2025-03-15%20archived%3Afalse%20is%3Apublic&sort=updated&order=desc&per_page=100&page=4"].
Proof. vm_compute. repeat split; reflexivity. Qed.

(** A cache that is fresh but is not JSON makes the promise reject: line 98
    is outside the [try]. *)
Example mount_with_corrupt_cache :
  fetching (fetchRepos sample_host (sample_run FetchFails)
              (initial (<[CACHE_KEY := js "oops"]> (sample_store 1757937300000))))
  = Rejected JsonSyntaxError.
Proof. vm_compute. reflexivity. Qed.

(** The handler itself does not look at the list: called on an empty one it
    hands [undefined] to [window.open].  The disabled button keeps a click
    from reaching it. *)
Example handleClick_empty :
  opened (handleClick sample_host (1 # 3) (initial ∅)) = [(None, js "_blank")]
  /\ click sample_host (1 # 3) (initial ∅) = initial ∅.
Proof. vm_compute. split; reflexivity. Qed.

Example recent_end_of_august : getRecentDate (fixed_offset 0) 1756598400000 6 = js "2025-03-03".
Proof. vm_compute. reflexivity. Qed.

(** Daylight saving: on 15 December 2025 at 19:30 in New York the cutoff is
    15 June at 19:30 there, which is 23:30 UTC on the same day; with the
    winter offset kept all year it would fall on the 16th. *)
Example recent_new_york :
  getRecentDate new_york_2025 1765845000000 6 = js "2025-06-15"
  /\ getRecentDate (fixed_offset (-18000000)) 1765845000000 6 = js "2025-06-16"
  /\ 1765845000000
       - Date.setMonth new_york_2025 1765845000000
           (Date.getMonth new_york_2025 1765845000000 - 6)
     = 183 * Date.msPerDay + 3600000.
Proof. vm_compute. repeat split; reflexivity. Qed.

(** * Properties of the host functions *)

(** ** Decimal digits and [parseInt] *)

Section NumberFacts.

Lemma digit_char_decimal n : 0 <= n < 10 -> is_decimal (Number.digit_char n).
Proof. unfold is_decimal, Number.digit_char. lia. Qed.

Lemma digit_value_char n :
  0 <= n < 10 -> Number.digit_value (Number.digit_char n) = Some n.
Proof.
  intros Hn. unfold Number.digit_value, Number.digit_char.
  rewrite Z2N.id by lia.
  replace ((48 <=? 48 + n) && (48 + n <=? 57)) with true
    by (symmetry; apply andb_true_iff; split; apply Z.leb_le; lia).
  f_equal. lia.
Qed.

Lemma digits_of_decimal f : forall n acc,
  Forall is_decimal acc -> Forall is_decimal (Number.digits_of f n acc).
Proof.
  induction f as [|f IH]; intros n acc Hacc; simpl; [assumption|].
  assert (Hd : is_decimal (Number.digit_char (n mod 10)))
    by (apply digit_char_decimal, Z.mod_pos_bound; lia).
  destruct (n <? 10); [constructor; assumption|].
  apply IH. constructor; assumption.
Qed.

Lemma digits_of_nonempty f n acc : Number.digits_of (S f) n acc <> [].
Proof.
  revert n acc. induction f as [|f IH]; intros n acc; simpl.
  - destruct (n <? 10); discriminate.
  - destruct (n <? 10); [discriminate|]. apply (IH (n / 10)).
Qed.

Lemma digits_of_read f : forall n acc,
  0 <= n < 2 ^ Z.of_nat (S f) ->
  Number.digits_prefix 10 (Number.digits_of (S f) n acc) 0 false
  = Number.digits_prefix 10 acc n true.
Proof.
  induction f as [|f IH]; intros n acc Hn.
  - change (2 ^ Z.of_nat 1) with 2 in Hn.
    cbn [Number.digits_of].
    replace (n <? 10) with true by (symmetry; apply Z.ltb_lt; lia).
    rewrite Z.mod_small by lia.
    cbn [Number.digits_prefix]. rewrite digit_value_char by lia.
    replace (n <? 10) with true by (symmetry; apply Z.ltb_lt; lia).
    reflexivity.
  - remember (S f) as f1 eqn:Hf1.
    cbn [Number.digits_of].
    destruct (Z.ltb_spec n 10) as [Hlt|Hge].
    + rewrite Z.mod_small by lia.
      cbn [Number.digits_prefix]. rewrite digit_value_char by lia.
      replace (n <? 10) with true by (symmetry; apply Z.ltb_lt; lia).
      reflexivity.
    + subst f1. rewrite IH.
      * cbn [Number.digits_prefix].
        rewrite digit_value_char by (apply Z.mod_pos_bound; lia).
        replace (n mod 10 <? 10) with true
          by (symmetry; apply Z.ltb_lt; apply Z.mod_pos_bound; lia).
        f_equal. pose proof (Z.div_mod n 10). lia.
      * rewrite Nat2Z.inj_succ, Z.pow_succ_r in Hn by lia.
        split; [apply Z.div_pos; lia|].
        apply Z.div_lt_upper_bound; lia.
Qed.

Lemma digits_bound n : 0 <= n -> n < 2 ^ Z.of_nat (S (Z.to_nat (Z.log2 n))).
Proof.
  intros Hn. rewrite Nat2Z.inj_succ, Z2Nat.id by apply Z.log2_nonneg.
  destruct (Z.eq_dec n 0) as [->|Hne]; [reflexivity|].
  apply Z.log2_spec. lia.
Qed.

Lemma digits_read n :
  0 <= n -> Number.digits_prefix 10 (Number.digits n) 0 false = Some n.
Proof.
  intros Hn. unfold Number.digits.
  rewrite digits_of_read by (split; [assumption | apply digits_bound; assumption]).
  reflexivity.
Qed.

Lemma digits_decimal n : Forall is_decimal (Number.digits n).
Proof. apply digits_of_decimal. constructor. Qed.

Lemma digits_nonempty n : Number.digits n <> [].
Proof. apply digits_of_nonempty. Qed.

Lemma decimal_not_whitespace c : is_decimal c -> Number.is_whitespace c = false.
Proof.
  unfold is_decimal, Number.is_whitespace. intros Hc.
  repeat (apply orb_false_iff; split);
    try (apply Z.eqb_neq; lia);
    apply andb_false_iff; [right | left]; apply Z.leb_gt; lia.
Qed.

(** On a string of decimal digits [parseInt] reads the whole string. *)
Lemma parseInt_decimal s :
  s <> [] -> Forall is_decimal s ->
  Number.parseInt s = Number.digits_prefix 10 s 0 false.
Proof.
  intros Hne Hs. destruct s as [|c s]; [congruence|].
  inversion Hs as [|? ? Hc Hs']; subst.
  unfold Number.parseInt. cbn [Number.trim_start].
  rewrite (decimal_not_whitespace c Hc).
  assert (Hm : N.eqb c (code "-") = false)
    by (apply N.eqb_neq; unfold is_decimal in Hc; cbn; lia).
  assert (Hp : N.eqb c (code "+") = false)
    by (apply N.eqb_neq; unfold is_decimal in Hc; cbn; lia).
  rewrite Hm, Hp.
  destruct s as [|c1 s].
  - cbn [option_map]. destruct (Number.digits_prefix 10 [c] 0 false); simpl; f_equal; lia.
  - inversion Hs' as [|? ? Hc1 _]; subst.
    assert (Hx : N.eqb c1 (code "x") || N.eqb c1 (code "X") = false).
    { apply orb_false_iff; split; apply N.eqb_neq;
        unfold is_decimal in Hc1; cbn; lia. }
    rewrite Hx, andb_false_r.
    destruct (Number.digits_prefix 10 (c :: c1 :: s) 0 false); simpl; f_equal; lia.
Qed.

(** Reading back a printed integer. *)
Lemma parseInt_toString n : Number.parseInt (Number.toString n) = Some n.
Proof.
  unfold Number.toString. destruct (Z.ltb_spec n 0) as [Hneg|Hpos].
  - pose proof (digits_nonempty (- n)) as Hne.
    pose proof (digits_decimal (- n)) as Hd.
    pose proof (digits_read (- n) ltac:(lia)) as Hr.
    destruct (Number.digits (- n)) as [|c s] eqn:E; [congruence|].
    inversion Hd as [|? ? Hc Hs']; subst.
    unfold Number.parseInt. cbn [Number.trim_start].
    change (Number.is_whitespace (code "-")) with false. cbv iota.
    change (N.eqb (code "-") (code "-")) with true. cbv iota.
    destruct s as [|c1 s].
    + rewrite Hr. simpl. f_equal. lia.
    + inversion Hs' as [|? ? Hc1 _]; subst.
      assert (Hx : N.eqb c1 (code "x") || N.eqb c1 (code "X") = false).
      { apply orb_false_iff; split; apply N.eqb_neq;
          unfold is_decimal in Hc1; cbn; lia. }
      rewrite Hx, andb_false_r, Hr. simpl. f_equal. lia.
  - rewrite parseInt_decimal by (apply digits_nonempty || apply digits_decimal).
    apply digits_read. assumption.
Qed.

End NumberFacts.

(** ** JSON: what [stringify] writes, [parse] reads back *)

Section JsonFacts.

Lemma hex_value_digit d : (d < 16)%N -> JSON.hex_value (JSON.hex_digit d) = Some d.
Proof.
  intros Hd. unfold JSON.hex_value, JSON.hex_digit.
  split_tests; try lia; f_equal; lia.
Qed.

Lemma unhex4_hex4 c :
  (c < 65536)%N ->
  match JSON.hex4 c with
  | [h1; h2; h3; h4] => JSON.unhex4 h1 h2 h3 h4 = Some c
  | _ => False
  end.
Proof.
  intros Hc. unfold JSON.hex4, JSON.unhex4.
  rewrite !hex_value_digit by (apply N.mod_lt; lia).
  f_equal.
  replace (c / 256)%N with (c / 16 / 16)%N by (rewrite N.Div0.div_div; reflexivity).
  replace (c / 4096)%N with (c / 16 / 16 / 16)%N
    by (rewrite !N.Div0.div_div; reflexivity).
  pose proof (N.div_mod c 16 ltac:(lia)) as H0.
  pose proof (N.div_mod (c / 16) 16 ltac:(lia)) as H1.
  pose proof (N.div_mod (c / 16 / 16) 16 ltac:(lia)) as H2.
  assert (Hsmall : (c / 16 / 16 / 16 < 16)%N)
    by (rewrite !N.Div0.div_div; apply N.Div0.div_lt_upper_bound; simpl; lia).
  rewrite (N.mod_small (c / 16 / 16 / 16) 16) by assumption. lia.
Qed.

Lemma short_escape_unescape c e :
  JSON.short_escape c = Some e ->
  JSON.unescape e = Some c /\ N.eqb e (code "u") = false.
Proof.
  intros H. unfold JSON.short_escape in H.
  repeat match type of H with
         | context [N.eqb ?a ?b] => destruct (N.eqb_spec a b)
         end;
    inversion H; subst; split; reflexivity.
Qed.

Lemma short_escape_none c :
  JSON.short_escape c = None -> c <> 34%N /\ c <> 92%N.
Proof. unfold JSON.short_escape. split_tests; intros [=]; lia. Qed.

Lemma parse_escaped e u r :
  JSON.unescape e = Some u -> N.eqb e (code "u") = false ->
  JSON.parse_string_body (code "\" :: e :: r) = JSON.push u (JSON.parse_string_body r).
Proof.
  intros Hu He. cbn [JSON.parse_string_body].
  change (N.eqb (code "\") 34) with false.
  change (N.eqb (code "\") (code "\")) with true. cbv iota.
  rewrite He, Hu. reflexivity.
Qed.

Lemma parse_unicode_escape c r :
  (c < 65536)%N ->
  JSON.parse_string_body (JSON.UnicodeEscape c ++ r)
  = JSON.push c (JSON.parse_string_body r).
Proof.
  intros Hc. pose proof (unhex4_hex4 c Hc) as Hx.
  unfold JSON.UnicodeEscape.
  destruct (JSON.hex4 c) as [|h1 [|h2 [|h3 [|h4 [|? ?]]]]]; try contradiction.
  cbn [app JSON.parse_string_body].
  change (N.eqb (code "\") 34) with false.
  change (N.eqb (code "\") (code "\")) with true.
  change (N.eqb (code "u") (code "u")) with true. cbv iota.
  rewrite Hx. reflexivity.
Qed.

Lemma parse_literal c r :
  c <> 34%N -> c <> 92%N -> (32 <= c)%N ->
  JSON.parse_string_body (c :: r) = JSON.push c (JSON.parse_string_body r).
Proof.
  intros H1 H2 H3. cbn [JSON.parse_string_body].
  change (code "\") with 92%N.
  split_tests; try lia. reflexivity.
Qed.

(** The body written by [QuoteJSONString] is read back up to the closing
    quote, whatever follows it. *)
Lemma parse_quote_units s : forall prev_high rest,
  JSON.parse_string_body (JSON.quote_units prev_high s ++ 34%N :: rest)
  = Some (s, rest).
Proof.
  induction s as [|c s IH]; intros prev_high rest.
  - reflexivity.
  - cbn [JSON.quote_units].
    destruct (JSON.short_escape c) as [e|] eqn:Hesc.
    + destruct (short_escape_unescape c e Hesc) as (Hu & He).
      cbn [app]. rewrite (parse_escaped e c) by assumption.
      rewrite IH. reflexivity.
    + destruct (short_escape_none c Hesc) as [Hq Hb].
      assert (Hesc_ok : forall b, (c < 65536)%N ->
                JSON.parse_string_body
                  ((JSON.UnicodeEscape c ++ JSON.quote_units b s) ++ 34%N :: rest)
                = Some (c :: s, rest)).
      { intros b Hc. rewrite <- app_assoc, parse_unicode_escape by assumption.
        rewrite IH. reflexivity. }
      assert (Hlit_ok : forall b, (32 <= c)%N ->
                JSON.parse_string_body
                  ((c :: JSON.quote_units b s) ++ 34%N :: rest)
                = Some (c :: s, rest)).
      { intros b Hc. cbn [app]. rewrite parse_literal by assumption.
        rewrite IH. reflexivity. }
      destruct (N.ltb_spec c 32) as [Hctl|Hprint].
      * apply Hesc_ok. lia.
      * unfold JSON.is_high_surrogate, JSON.is_low_surrogate.
        destruct (N.leb_spec 55296 c), (N.leb_spec c 56319); cbn [andb].
        -- destruct (match s with [] => false | l :: _ => _ end);
             [apply Hlit_ok | apply Hesc_ok]; lia.
        -- destruct (N.leb_spec 56320 c), (N.leb_spec c 57343); cbn [andb];
             try (apply Hlit_ok; lia).
           destruct prev_high; [apply Hlit_ok | apply Hesc_ok]; lia.
        -- destruct (N.leb_spec 56320 c), (N.leb_spec c 57343); cbn [andb];
             try (apply Hlit_ok; lia); lia.
        -- destruct (N.leb_spec 56320 c), (N.leb_spec c 57343); cbn [andb];
             try (apply Hlit_ok; lia); lia.
Qed.

Lemma parse_value_quoted f s rest :
  JSON.parse_value (S f) (JSON.QuoteJSONString s ++ rest)
  = Some (JSON.JString s, rest).
Proof.
  unfold JSON.QuoteJSONString. cbn [app JSON.parse_value JSON.skip_ws].
  change (JSON.is_ws 34) with false. cbv iota.
  change (N.eqb 34 34) with true. cbv iota.
  rewrite <- app_assoc. cbn [app]. rewrite parse_quote_units. reflexivity.
Qed.

Lemma parse_elements_quoted l : forall f rest,
  l <> [] -> (length l <= f)%nat ->
  JSON.parse_elements (S f)
    (JSON.join_comma (map JSON.QuoteJSONString l) ++ code "]" :: rest)
  = Some (map JSON.JString l, rest).
Proof.
  induction l as [|s l IH]; intros f rest Hne Hf; [congruence|].
  destruct f as [|f]; [simpl in Hf; lia|].
  destruct l as [|s' l].
  - cbn [map JSON.join_comma]. cbn [JSON.parse_elements].
    rewrite parse_value_quoted. reflexivity.
  - cbn [map JSON.join_comma].
    change (JSON.parse_elements (S (S f)) ?x)
      with (match JSON.parse_value (S f) x with
            | None => None
            | Some (v, r) =>
                match JSON.skip_ws r with
                | c :: r' =>
                    if N.eqb c (code ",") then
                      match JSON.parse_elements (S f) r' with
                      | Some (vs, r'') => Some (v :: vs, r'')
                      | None => None
                      end
                    else if N.eqb c (code "]") then Some ([v], r')
                    else None
                | [] => None
                end
            end).
    rewrite <- app_assoc. rewrite parse_value_quoted.
    cbn [app JSON.skip_ws]. change (JSON.is_ws (code ",")) with false. cbv iota.
    change (N.eqb (code ",") (code ",")) with true. cbv iota.
    change (JSON.QuoteJSONString s' :: map JSON.QuoteJSONString l)
      with (map JSON.QuoteJSONString (s' :: l)).
    rewrite IH by (simpl in *; (congruence || lia)).
    reflexivity.
Qed.

Lemma join_comma_length l :
  (length l <= S (length (JSON.join_comma (map JSON.QuoteJSONString l))))%nat.
Proof.
  induction l as [|s l IH]; [simpl; lia|].
  destruct l as [|s' l]; [simpl; lia|].
  change (JSON.join_comma (map JSON.QuoteJSONString (s :: s' :: l)))
    with (JSON.QuoteJSONString s
          ++ code "," :: JSON.join_comma (map JSON.QuoteJSONString (s' :: l))).
  rewrite length_app. cbn [length] in *. lia.
Qed.

Lemma as_string_array_strings l :
  as_string_array (JSON.JArray (map JSON.JString l)) = Some l.
Proof.
  simpl. induction l as [|s l IH]; simpl; [reflexivity|]. rewrite IH. reflexivity.
Qed.

(** Round trip: [JSON.parse(JSON.stringify(a))] is [a] again. *)
Lemma parse_stringify l :
  JSON.parse (JSON.stringify l) = Some (JSON.JArray (map JSON.JString l)).
Proof.
  unfold JSON.parse, JSON.stringify.
  destruct l as [|s l]; [reflexivity|].
  set (body := JSON.join_comma (map JSON.QuoteJSONString (s :: l))).
  assert (Hfuel : exists f, (2 * length (code "[" :: body ++ [code "]"]) + 2
                            = S (S f) /\ length (s :: l) <= f)%nat).
  { pose proof (join_comma_length (s :: l)) as Hl. fold body in Hl.
    exists (2 * length (code "[" :: body ++ [code "]"]))%nat.
    split; [lia|]. cbn [length]. rewrite length_app. simpl in *. lia. }
  destruct Hfuel as (f & -> & Hf).
  assert (Hfirst : exists r, body ++ [code "]"] = 34%N :: r).
  { subst body. cbn [map JSON.join_comma]. destruct l; simpl; eauto. }
  destruct Hfirst as [r Hr].
  cbn [JSON.parse_value JSON.skip_ws]. change (JSON.is_ws (code "[")) with false.
  cbv iota. change (N.eqb (code "[") 34) with false.
  change (N.eqb (code "[") (code "[")) with true. cbv iota.
  rewrite Hr. cbn [JSON.skip_ws]. change (JSON.is_ws 34) with false. cbv iota.
  change (N.eqb 34 (code "]")) with false. cbv iota.
  rewrite <- Hr. subst body.
  rewrite parse_elements_quoted by (congruence || assumption).
  reflexivity.
Qed.

Lemma parse_cached_stringify l : parse_cached (Some (JSON.stringify l)) = Strings l.
Proof.
  unfold parse_cached.
  change (default (js "null") (Some (JSON.stringify l))) with (JSON.stringify l).
  rewrite parse_stringify, as_string_array_strings. reflexivity.
Qed.

End JsonFacts.

(** ** JSON: the fuel given by [parse] is enough

    None of the three parsers depends on its fuel once it has twice the
    length of the text (and two more). *)

Section JsonFuel.

Lemma skip_ws_length s : (length (JSON.skip_ws s) <= length s)%nat.
Proof.
  induction s as [|c s IH]; simpl; [lia|]. destruct (JSON.is_ws c); simpl; lia.
Qed.

Lemma skip_ws_cons s c r : JSON.skip_ws s = c :: r -> (length r < length s)%nat.
Proof.
  intros H. pose proof (skip_ws_length s) as Hl. rewrite H in Hl. simpl in Hl. lia.
Qed.

Lemma push_length c p s r :
  JSON.push c p = Some (s, r) -> exists s', p = Some (s', r).
Proof. destruct p as [[s' r']|]; simpl; [|discriminate]. intros [= _ <-]. eauto. Qed.

Lemma parse_string_body_length s : forall str r,
  JSON.parse_string_body s = Some (str, r) -> (length r < length s)%nat.
Proof.
  induction s as [s IH] using (induction_ltof1 _ (@length N)). unfold ltof in IH.
  intros str r. destruct s as [|c s]; [discriminate|].
  cbn [JSON.parse_string_body].
  destruct (N.eqb c 34); [intros [= _ <-]; simpl; lia|].
  destruct (N.eqb c (code "\")).
  - destruct s as [|e s1]; [discriminate|].
    destruct (N.eqb e (code "u")).
    + destruct s1 as [|h1 [|h2 [|h3 [|h4 s2]]]]; try discriminate.
      destruct (JSON.unhex4 h1 h2 h3 h4); [|discriminate].
      intros (s' & H)%push_length. apply IH in H; simpl in *; lia.
    + destruct (JSON.unescape e); [|discriminate].
      intros (s' & H)%push_length. apply IH in H; simpl in *; lia.
  - destruct (N.ltb c 32); [discriminate|].
    intros (s' & H)%push_length. apply IH in H; simpl in *; lia.
Qed.

Lemma take_digits_length s :
  (length (snd (JSON.take_digits s)) <= length s)%nat.
Proof.
  induction s as [|c s IH]; simpl; [lia|].
  destruct (JSON.is_digit c); [|simpl; lia].
  destruct (JSON.take_digits s); simpl in *; lia.
Qed.

Lemma strip_prefix_length p : forall s r,
  JSON.strip_prefix p s = Some r -> (length r <= length s)%nat.
Proof.
  induction p as [|a p IH]; intros s r; simpl.
  - intros [= ->]. lia.
  - destruct s as [|b s]; [discriminate|].
    destruct (N.eqb a b); [|discriminate].
    intros H%IH. simpl. lia.
Qed.

Ltac break_number H :=
  repeat match type of H with
    | context [JSON.take_digits ?x] =>
        let Hl := fresh "Hl" in
        pose proof (take_digits_length x) as Hl;
        destruct (JSON.take_digits x) as [? ?]; cbn [snd] in Hl
    | context [if ?b then _ else _] => destruct b
    | context [match ?l with [] => _ | _ :: _ => _ end] => destruct l
    end.

Lemma parse_number_length s lit r :
  JSON.parse_number s = Some (lit, r) -> (length r < length s)%nat.
Proof.
  intros H. unfold JSON.parse_number in H.
  destruct s as [|c s]; [discriminate|].
  break_number H; try discriminate;
    injection H as _ <-; cbn [length] in *; lia.
Qed.

Lemma parsers_consume f :
  (forall s v r, JSON.parse_value f s = Some (v, r) -> (length r < length s)%nat)
  /\ (forall s vs r, JSON.parse_elements f s = Some (vs, r) ->
        (length r < length s)%nat)
  /\ (forall s ms r, JSON.parse_members f s = Some (ms, r) ->
        (length r < length s)%nat).
Proof.
  induction f as [|f (IHv & IHe & IHm)]; [repeat split; discriminate|].
  assert (Hv : forall s v r, JSON.parse_value (S f) s = Some (v, r) ->
                 (length r < length s)%nat).
  { intros s v r. cbn [JSON.parse_value].
    destruct (JSON.skip_ws s) as [|c t] eqn:Hs; [discriminate|].
    apply skip_ws_cons in Hs.
    destruct (N.eqb c 34).
    { destruct (JSON.parse_string_body t) as [[str r']|] eqn:E; [|discriminate].
      intros [= _ <-]. apply parse_string_body_length in E. lia. }
    destruct (N.eqb c (code "[")).
    { destruct (JSON.skip_ws t) as [|c' t'] eqn:Ht; [discriminate|].
      apply skip_ws_cons in Ht.
      destruct (N.eqb c' (code "]")); [intros [= _ <-]; lia|].
      destruct (JSON.parse_elements f t) as [[vs r']|] eqn:E; [|discriminate].
      intros [= _ <-]. apply IHe in E. lia. }
    destruct (N.eqb c (code "{")).
    { destruct (JSON.skip_ws t) as [|c' t'] eqn:Ht; [discriminate|].
      apply skip_ws_cons in Ht.
      destruct (N.eqb c' (code "}")); [intros [= _ <-]; lia|].
      destruct (JSON.parse_members f t) as [[ms r']|] eqn:E; [|discriminate].
      intros [= _ <-]. apply IHm in E. lia. }
    destruct (N.eqb c (code "t")).
    { destruct (JSON.strip_prefix _ t) as [r'|] eqn:E; [|discriminate].
      intros [= _ <-]. apply strip_prefix_length in E. lia. }
    destruct (N.eqb c (code "f")).
    { destruct (JSON.strip_prefix _ t) as [r'|] eqn:E; [|discriminate].
      intros [= _ <-]. apply strip_prefix_length in E. lia. }
    destruct (N.eqb c (code "n")).
    { destruct (JSON.strip_prefix _ t) as [r'|] eqn:E; [|discriminate].
      intros [= _ <-]. apply strip_prefix_length in E. lia. }
    destruct (JSON.parse_number (c :: t)) as [[lit r']|] eqn:E; [|discriminate].
    intros [= _ <-]. apply parse_number_length in E. simpl in E. lia. }
  split; [exact Hv|]. split.
  - intros s vs r. cbn [JSON.parse_elements].
    destruct (JSON.parse_value f s) as [[v t]|] eqn:E; [|discriminate].
    apply IHv in E.
    destruct (JSON.skip_ws t) as [|c t'] eqn:Ht; [discriminate|].
    apply skip_ws_cons in Ht.
    destruct (N.eqb c (code ",")).
    + destruct (JSON.parse_elements f t') as [[vs' r']|] eqn:E'; [|discriminate].
      intros [= _ <-]. apply IHe in E'. lia.
    + destruct (N.eqb c (code "]")); [|discriminate]. intros [= _ <-]. lia.
  - intros s ms r. cbn [JSON.parse_members].
    destruct (JSON.skip_ws s) as [|q t0] eqn:Hs; [discriminate|].
    apply skip_ws_cons in Hs.
    destruct (N.eqb q 34); [|discriminate].
    destruct (JSON.parse_string_body t0) as [[k t1]|] eqn:E0; [|discriminate].
    apply parse_string_body_length in E0.
    destruct (JSON.skip_ws t1) as [|colon t2] eqn:Ht1; [discriminate|].
    apply skip_ws_cons in Ht1.
    destruct (N.eqb colon (code ":")); [|discriminate].
    destruct (JSON.parse_value f t2) as [[v t3]|] eqn:E2; [|discriminate].
    apply IHv in E2.
    destruct (JSON.skip_ws t3) as [|c t4] eqn:Ht3; [discriminate|].
    apply skip_ws_cons in Ht3.
    destruct (N.eqb c (code ",")).
    + destruct (JSON.parse_members f t4) as [[ms' r']|] eqn:E4; [|discriminate].
      intros [= _ <-]. apply IHm in E4. lia.
    + destruct (N.eqb c (code "}")); [|discriminate]. intros [= _ <-]. lia.
Qed.

Lemma parsers_fuel s :
  (forall f f', (2 * length s + 1 <= f)%nat -> (2 * length s + 1 <= f')%nat ->
     JSON.parse_value f s = JSON.parse_value f' s)
  /\ (forall f f', (2 * length s + 2 <= f)%nat -> (2 * length s + 2 <= f')%nat ->
        JSON.parse_elements f s = JSON.parse_elements f' s)
  /\ (forall f f', (2 * length s + 2 <= f)%nat -> (2 * length s + 2 <= f')%nat ->
        JSON.parse_members f s = JSON.parse_members f' s).
Proof.
  induction s as [s IH] using (induction_ltof1 _ (@length N)). unfold ltof in IH.
  assert (Hv : forall f f',
             (2 * length s + 1 <= f)%nat -> (2 * length s + 1 <= f')%nat ->
             JSON.parse_value f s = JSON.parse_value f' s).
  { intros [|f] [|f'] Hf Hf'; try lia. cbn [JSON.parse_value].
    destruct (JSON.skip_ws s) as [|c t] eqn:Hs; [reflexivity|].
    apply skip_ws_cons in Hs.
    destruct (IH t Hs) as (_ & IHe & IHm).
    rewrite (IHe f f') by lia. rewrite (IHm f f') by lia. reflexivity. }
  split; [exact Hv|]. split.
  - intros [|f] [|f'] Hf Hf'; try lia. cbn [JSON.parse_elements].
    rewrite (Hv f f') by lia.
    destruct (JSON.parse_value f' s) as [[v t]|] eqn:E; [|reflexivity].
    apply (proj1 (parsers_consume f')) in E.
    destruct (JSON.skip_ws t) as [|c t'] eqn:Ht; [reflexivity|].
    apply skip_ws_cons in Ht.
    destruct (IH t' ltac:(lia)) as (_ & IHe & _).
    rewrite (IHe f f') by lia. reflexivity.
  - intros [|f] [|f'] Hf Hf'; try lia. cbn [JSON.parse_members].
    destruct (JSON.skip_ws s) as [|q t0] eqn:Hs; [reflexivity|].
    apply skip_ws_cons in Hs.
    destruct (N.eqb q 34); [|reflexivity].
    destruct (JSON.parse_string_body t0) as [[k t1]|] eqn:E0; [|reflexivity].
    apply parse_string_body_length in E0.
    destruct (JSON.skip_ws t1) as [|colon t2] eqn:Ht1; [reflexivity|].
    apply skip_ws_cons in Ht1.
    destruct (N.eqb colon (code ":")); [|reflexivity].
    destruct (IH t2 ltac:(lia)) as (IHv2 & _ & _).
    rewrite (IHv2 f f') by lia.
    destruct (JSON.parse_value f' t2) as [[v t3]|] eqn:E2; [|reflexivity].
    apply (proj1 (parsers_consume f')) in E2.
    destruct (JSON.skip_ws t3) as [|c t4] eqn:Ht3; [reflexivity|].
    apply skip_ws_cons in Ht3.
    destruct (IH t4 ltac:(lia)) as (_ & _ & IHm4).
    rewrite (IHm4 f f') by lia. reflexivity.
Qed.

(** More fuel than [parse] gives changes nothing. *)
Lemma parse_fuel_enough text f :
  (2 * length text + 2 <= f)%nat ->
  JSON.parse_value f text = JSON.parse_value (2 * length text + 2) text.
Proof. intros Hf. apply parsers_fuel; lia. Qed.

End JsonFuel.

(** ** The request URL is always built *)

Section UrlFacts.

Lemma is_ascii_app a b : is_ascii (a ++ b) = is_ascii a && is_ascii b.
Proof. apply forallb_app. Qed.

Lemma is_ascii_cons c s : is_ascii (c :: s) = (c <? 128)%N && is_ascii s.
Proof. reflexivity. Qed.

Lemma is_ascii_decimal s : Forall is_decimal s -> is_ascii s = true.
Proof.
  induction 1 as [|c s Hc _ IH]; [reflexivity|].
  simpl. rewrite IH, andb_true_r. apply N.ltb_lt. unfold is_decimal in Hc. lia.
Qed.

Lemma is_ascii_digits n : is_ascii (Number.digits n) = true.
Proof. apply is_ascii_decimal, digits_decimal. Qed.

Lemma is_ascii_toString n : is_ascii (Number.toString n) = true.
Proof.
  unfold Number.toString. destruct (n <? 0); [|apply is_ascii_digits].
  rewrite is_ascii_cons, is_ascii_digits. reflexivity.
Qed.

Lemma is_ascii_repeat c k : (c < 128)%N -> is_ascii (repeat c k) = true.
Proof.
  intros Hc. induction k as [|k IH]; [reflexivity|].
  simpl. rewrite IH, andb_true_r. apply N.ltb_lt. assumption.
Qed.

Lemma is_ascii_pad w n : is_ascii (Number.pad w n) = true.
Proof.
  unfold Number.pad. rewrite is_ascii_app, is_ascii_digits, andb_true_r.
  apply is_ascii_repeat. reflexivity.
Qed.

Lemma is_ascii_iso_date y m d : is_ascii (Date.iso_date y m d) = true.
Proof.
  unfold Date.iso_date, Date.iso_year.
  rewrite is_ascii_app.
  apply andb_true_iff; split.
  - destruct ((0 <=? y) && (y <=? 9999)); [apply is_ascii_pad|].
    rewrite is_ascii_cons, is_ascii_pad. destruct (y <? 0); reflexivity.
  - rewrite is_ascii_cons, is_ascii_app, is_ascii_cons, !is_ascii_pad.
    reflexivity.
Qed.

Lemma is_ascii_split_head sep s : is_ascii s = true -> is_ascii (split_head sep s) = true.
Proof.
  induction s as [|c s IH]; [reflexivity|].
  simpl. intros [Hc Hs]%andb_true_iff.
  destruct (N.eqb c sep); [reflexivity|].
  simpl. rewrite Hc. apply IH, Hs.
Qed.

Lemma is_ascii_toISOString t : is_ascii (Date.toISOString t) = true.
Proof.
  unfold Date.toISOString.
  repeat first
    [ rewrite is_ascii_app
    | rewrite is_ascii_cons
    | rewrite is_ascii_iso_date
    | rewrite is_ascii_pad ].
  reflexivity.
Qed.

Lemma is_ascii_getRecentDate tza now months :
  is_ascii (getRecentDate tza now months) = true.
Proof. apply is_ascii_split_head, is_ascii_toISOString. Qed.

Lemma is_ascii_show v absent :
  is_ascii (js absent) = true -> is_ascii (show v absent) = true.
Proof. destruct v; simpl; [intros _; apply is_ascii_toString | tauto]. Qed.

Lemma is_ascii_query h now r1 r2 :
  is_ascii (join_space (queryParts (build_query h now r1 r2))) = true.
Proof.
  unfold queryParts, build_query, join_space.
  cbn [recentDate minStars maxStars].
  rewrite !is_ascii_app, !is_ascii_cons, !is_ascii_app.
  rewrite is_ascii_getRecentDate, !is_ascii_show by reflexivity.
  reflexivity.
Qed.

Lemma ascii_not_surrogate c :
  (c < 128)%N -> JSON.is_high_surrogate c = false /\ JSON.is_low_surrogate c = false.
Proof.
  intros Hc. unfold JSON.is_high_surrogate, JSON.is_low_surrogate.
  split; apply andb_false_iff; left; apply N.leb_gt; lia.
Qed.

(** [encodeURIComponent] raises nothing on ASCII text. *)
Lemma encodeURIComponent_ascii s :
  is_ascii s = true -> exists t, URI.encodeURIComponent s = Some t.
Proof.
  induction s as [|c s IH]; [eexists; reflexivity|].
  simpl. intros [Hc Hs]%andb_true_iff. apply N.ltb_lt in Hc.
  destruct (IH Hs) as [t Ht]. rewrite Ht.
  destruct (ascii_not_surrogate c Hc) as [-> ->].
  destruct (URI.is_unreserved c); eexists; reflexivity.
Qed.

Lemma url_of_total h now r1 r2 :
  exists url, url_of (build_query h now r1 r2) = Some url.
Proof.
  unfold url_of.
  destruct (encodeURIComponent_ascii _ (is_ascii_query h now r1 r2)) as [t ->].
  eexists; reflexivity.
Qed.

End UrlFacts.

(** ** Calendar arithmetic *)

Section DateFacts.

Lemma DayFromYear_succ y :
  Date.DayFromYear (y + 1) = Date.DayFromYear y + Date.DaysInYear y.
Proof.
  unfold Date.DayFromYear, Date.DaysInYear.
  destruct (Z.eqb_spec (y mod 4) 0), (Z.eqb_spec (y mod 100) 0),
    (Z.eqb_spec (y mod 400) 0); cbn [negb];
    Z.div_mod_to_equations; lia.
Qed.

Lemma DaysInYear_cases y : Date.DaysInYear y = 365 + Date.InLeapYear y.
Proof.
  unfold Date.InLeapYear, Date.DaysInYear.
  destruct (negb (y mod 4 =? 0)); [reflexivity|].
  destruct (negb (y mod 100 =? 0)); [reflexivity|].
  destruct (negb (y mod 400 =? 0)); reflexivity.
Qed.

Lemma InLeapYear_cases y : Date.InLeapYear y = 0 \/ Date.InLeapYear y = 1.
Proof. unfold Date.InLeapYear. destruct (_ =? _); auto. Qed.

(** The year of a day is the one whose span of days contains it. *)
Lemma YearFromDay_unique y d :
  Date.DayFromYear y <= d < Date.DayFromYear (y + 1) -> Date.YearFromDay d = y.
Proof.
  unfold Date.YearFromDay, Date.DayFromYear. intros Hd.
  destruct (Z.ltb_spec d (365 * (1970 + d * 400 / 146097 - 1970)
     + (1970 + d * 400 / 146097 - 1969) / 4
     - (1970 + d * 400 / 146097 - 1901) / 100
     + (1970 + d * 400 / 146097 - 1601) / 400)) as [H1|H1].
  - Z.div_mod_to_equations. lia.
  - destruct (Z.leb_spec (365 * (1970 + d * 400 / 146097 + 1 - 1970)
     + (1970 + d * 400 / 146097 + 1 - 1969) / 4
     - (1970 + d * 400 / 146097 + 1 - 1901) / 100
     + (1970 + d * 400 / 146097 + 1 - 1601) / 400) d) as [H2|H2];
      Z.div_mod_to_equations; lia.
Qed.

(** Every day falls in the span of the year computed for it. *)
Lemma YearFromDay_spec d :
  Date.DayFromYear (Date.YearFromDay d) <= d
  < Date.DayFromYear (Date.YearFromDay d + 1).
Proof.
  unfold Date.YearFromDay.
  set (y := 1970 + d * 400 / 146097).
  assert (Hy : 146097 * (y - 1970) <= d * 400 < 146097 * (y - 1970) + 146097)
    by (subst y; Z.div_mod_to_equations; lia).
  clearbody y.
  destruct (Z.ltb_spec d (Date.DayFromYear y)) as [H1|H1].
  - replace (y - 1 + 1) with y by lia. split; [|assumption].
    unfold Date.DayFromYear in *. Z.div_mod_to_equations. lia.
  - destruct (Z.leb_spec (Date.DayFromYear (y + 1)) d) as [H2|H2]; [|lia].
    split; [assumption|].
    unfold Date.DayFromYear in *. Z.div_mod_to_equations. lia.
Qed.

Lemma month_of_yday_start y m dd :
  0 <= m <= 11 -> 1 <= dd <= DaysInMonth y m ->
  Date.month_of_yday (Date.InLeapYear y)
    (Date.month_start (Date.InLeapYear y) m + dd - 1) = m.
Proof.
  intros Hm Hd. pose proof (InLeapYear_cases y) as Hl.
  unfold DaysInMonth in Hd. revert Hd Hl. generalize (Date.InLeapYear y) as leap. intros leap Hd Hl.
  split_month m; calendar; split_ltb; lia.
Qed.

Lemma yday_in_year y m dd :
  0 <= m <= 11 -> 1 <= dd <= DaysInMonth y m ->
  0 <= Date.month_start (Date.InLeapYear y) m + dd - 1 < Date.DaysInYear y.
Proof.
  intros Hm Hd. rewrite DaysInYear_cases. pose proof (InLeapYear_cases y) as Hl.
  unfold DaysInMonth in Hd. revert Hd Hl. generalize (Date.InLeapYear y) as leap. intros leap Hd Hl.
  split_month m; calendar; lia.
Qed.

Lemma month_of_yday_range leap dwy : 0 <= Date.month_of_yday leap dwy <= 11.
Proof. unfold Date.month_of_yday. split_ltb; lia. Qed.

Lemma date_of_yday_range leap dwy :
  0 <= leap <= 1 -> 0 <= dwy < 365 + leap ->
  1 <= dwy - Date.month_start leap (Date.month_of_yday leap dwy) + 1 <= 31.
Proof.
  intros Hl Hd. calendar. split_ltb; lia.
Qed.

Lemma Day_MakeDate day tod :
  0 <= tod < Date.msPerDay ->
  Date.Day (Date.MakeDate day tod) = day
  /\ Date.TimeWithinDay (Date.MakeDate day tod) = tod.
Proof.
  unfold Date.Day, Date.TimeWithinDay, Date.MakeDate, Date.msPerDay.
  intros H. Z.div_mod_to_equations. lia.
Qed.

Lemma TimeWithinDay_range t : 0 <= Date.TimeWithinDay t < Date.msPerDay.
Proof. apply Z.mod_pos_bound. reflexivity. Qed.

(** The calendar date of a time value built from a year, a month, a day
    that exists in it and a time of day. *)
Lemma civil_MakeDay y m dd tod :
  0 <= m <= 11 -> 1 <= dd <= DaysInMonth y m -> 0 <= tod < Date.msPerDay ->
  civil (Date.MakeDate (Date.MakeDay y m dd) tod) = (y, m, dd).
Proof.
  intros Hm Hd Ht. unfold civil, Date.MakeDay.
  rewrite Z.div_small, Z.add_0_r, Z.mod_small by lia.
  pose proof (yday_in_year y m dd Hm Hd) as Hy.
  assert (Hyear : Date.YearFromTime (Date.MakeDate
            (Date.DayFromYear y + Date.month_start (Date.InLeapYear y) m + dd - 1)
            tod) = y).
  { unfold Date.YearFromTime. rewrite (proj1 (Day_MakeDate _ tod Ht)).
    apply YearFromDay_unique. rewrite DayFromYear_succ. lia. }
  assert (Hmonth : Date.MonthFromTime (Date.MakeDate
            (Date.DayFromYear y + Date.month_start (Date.InLeapYear y) m + dd - 1)
            tod) = m).
  { unfold Date.MonthFromTime, Date.DayWithinYear. rewrite Hyear.
    rewrite (proj1 (Day_MakeDate _ tod Ht)).
    replace (Date.DayFromYear y + Date.month_start (Date.InLeapYear y) m + dd - 1
             - Date.DayFromYear y)
      with (Date.month_start (Date.InLeapYear y) m + dd - 1) by lia.
    apply month_of_yday_start; assumption. }
  unfold Date.DateFromTime. rewrite Hmonth.
  unfold Date.DayWithinYear. rewrite Hyear, (proj1 (Day_MakeDate _ tod Ht)).
  repeat f_equal. lia.
Qed.

Lemma MonthFromTime_range t : 0 <= Date.MonthFromTime t <= 11.
Proof. apply month_of_yday_range. Qed.

Lemma DateFromTime_range t : 1 <= Date.DateFromTime t <= 31.
Proof.
  unfold Date.DateFromTime, Date.MonthFromTime.
  apply date_of_yday_range; [destruct (InLeapYear_cases (Date.YearFromTime t)); lia|].
  unfold Date.DayWithinYear, Date.YearFromTime.
  pose proof (YearFromDay_spec (Date.Day t)) as Hs.
  rewrite DayFromYear_succ, DaysInYear_cases in Hs. lia.
Qed.

(** The wall-clock reading [setMonth] builds, before it is turned back
    into an instant. *)
Lemma setMonth_wall tza now month :
  Date.setMonth tza now month
  = Date.UTC tza
      (Date.MakeDate
         (Date.MakeDay (Date.YearFromTime (Date.LocalTime tza now)) month
                       (Date.DateFromTime (Date.LocalTime tza now)))
         (Date.TimeWithinDay (Date.LocalTime tza now))).
Proof. reflexivity. Qed.

Lemma months_before_range k y m d :
  let '(y', m', _) := months_before k (y, m, d) in
  0 <= m' <= 11 /\ Date.MakeDay y (m - k) d = Date.MakeDay y' m' d.
Proof.
  unfold months_before, Date.MakeDay.
  pose proof (Z.mod_pos_bound (12 * y + m - k) 12 ltac:(lia)) as Hb.
  split; [lia|].
  rewrite (Z.div_small ((12 * y + m - k) mod 12))
    by (apply Z.mod_pos_bound; lia).
  rewrite (Z.mod_small ((12 * y + m - k) mod 12))
    by (apply Z.mod_pos_bound; lia).
  replace (y + (m - k) / 12) with ((12 * y + m - k) / 12)
    by (Z.div_mod_to_equations; lia).
  replace ((m - k) mod 12) with ((12 * y + m - k) mod 12)
    by (Z.div_mod_to_equations; lia).
  rewrite Z.add_0_r. reflexivity.
Qed.

(** The wall-clock reading set [k] months back has the same day of the
    month and the same time of day, provided that day exists there. *)
Lemma wall_months_before t k :
  let wall :=
    Date.MakeDate
      (Date.MakeDay (Date.YearFromTime t) (Date.MonthFromTime t - k)
                    (Date.DateFromTime t))
      (Date.TimeWithinDay t) in
  day_exists (months_before k (civil t)) ->
  civil wall = months_before k (civil t)
  /\ Date.TimeWithinDay wall = Date.TimeWithinDay t.
Proof.
  intros wall Hd. subst wall.
  change (civil t)
    with (Date.YearFromTime t, Date.MonthFromTime t, Date.DateFromTime t) in *.
  pose proof (months_before_range k (Date.YearFromTime t) (Date.MonthFromTime t)
                (Date.DateFromTime t)) as Hr.
  destruct (months_before k _) as [[y' m'] d'] eqn:E.
  assert (d' = Date.DateFromTime t) as ->
    by (unfold months_before in E; congruence).
  destruct Hr as [Hm ->]. cbn in Hd.
  pose proof (TimeWithinDay_range t) as Ht.
  split; [apply civil_MakeDay; assumption|].
  apply Day_MakeDate. assumption.
Qed.

Lemma split_head_app sep a b :
  Forall (fun c => c <> sep) a -> split_head sep (a ++ sep :: b) = a.
Proof.
  induction 1 as [|c a Hc _ IH]; simpl.
  - rewrite N.eqb_refl. reflexivity.
  - destruct (N.eqb_spec c sep); [contradiction|]. rewrite IH. reflexivity.
Qed.

Lemma pad_decimal w n : Forall is_decimal (Number.pad w n).
Proof.
  unfold Number.pad. apply Forall_app; split; [|apply digits_decimal].
  induction (w - length (Number.digits n))%nat as [|k IH]; simpl; constructor;
    [|assumption].
  unfold is_decimal. cbn. lia.
Qed.

Lemma decimal_date_char s : Forall is_decimal s -> Forall date_char s.
Proof. apply List.Forall_impl. intros c Hc. left. assumption. Qed.

Lemma iso_date_chars y m d : Forall date_char (Date.iso_date y m d).
Proof.
  unfold Date.iso_date, Date.iso_year.
  apply Forall_app; split.
  - destruct ((0 <=? y) && (y <=? 9999)); [apply decimal_date_char, pad_decimal|].
    constructor; [|apply decimal_date_char, pad_decimal].
    destruct (y <? 0); [right; left | right; right]; reflexivity.
  - constructor; [right; left; reflexivity|].
    apply Forall_app; split; [apply decimal_date_char, pad_decimal|].
    constructor; [right; left; reflexivity|].
    apply decimal_date_char, pad_decimal.
Qed.

(** The text before the [T] of an ISO string is its calendar part. *)
Lemma getRecentDate_iso tza now k :
  let cutoff := Date.setMonth tza now (Date.getMonth tza now - k) in
  getRecentDate tza now k
  = Date.iso_date (Date.YearFromTime cutoff) (Date.MonthFromTime cutoff)
                  (Date.DateFromTime cutoff).
Proof.
  intros cutoff. unfold getRecentDate. fold cutoff. unfold Date.toISOString.
  apply split_head_app.
  eapply List.Forall_impl; [|apply iso_date_chars].
  intros c [Hc|[->| ->]]; [|discriminate|discriminate].
  unfold is_decimal in Hc. intros ->. cbn in Hc. lia.
Qed.

(** [getRecentDate] through the wall-clock reading it sets. *)
Lemma getRecentDate_wall tza now k :
  let t := Date.LocalTime tza now in
  let wall :=
    Date.MakeDate
      (Date.MakeDay (Date.YearFromTime t) (Date.MonthFromTime t - k)
                    (Date.DateFromTime t))
      (Date.TimeWithinDay t) in
  let cutoff := Date.UTC tza wall in
  Date.setMonth tza now (Date.getMonth tza now - k) = cutoff
  /\ getRecentDate tza now k
     = Date.iso_date (Date.YearFromTime cutoff) (Date.MonthFromTime cutoff)
                     (Date.DateFromTime cutoff).
Proof.
  intros t wall cutoff.
  assert (Hset : Date.setMonth tza now (Date.getMonth tza now - k) = cutoff)
    by (rewrite setMonth_wall; reflexivity).
  split; [exact Hset|].
  rewrite getRecentDate_iso, Hset. reflexivity.
Qed.

Lemma digits_of_length f : forall n acc (k : nat),
  (1 <= k)%nat -> n < 10 ^ Z.of_nat k ->
  (length (Number.digits_of f n acc) <= k + length acc)%nat.
Proof.
  induction f as [|f IH]; intros n acc k Hk Hn; simpl; [lia|].
  destruct (Z.ltb_spec n 10) as [Hlt|Hge]; [simpl; lia|].
  destruct k as [|[|k]]; [lia| change (10 ^ Z.of_nat 1) with 10 in Hn; lia |].
  specialize (IH (n / 10) (Number.digit_char (n mod 10) :: acc) (S k)).
  simpl length in IH. etransitivity; [apply IH|]; try lia.
  rewrite Nat2Z.inj_succ, Z.pow_succ_r in Hn by lia.
  apply Z.div_lt_upper_bound; lia.
Qed.

Lemma pad_length (w : nat) n :
  (1 <= w)%nat -> n < 10 ^ Z.of_nat w -> length (Number.pad w n) = w.
Proof.
  intros Hw Hn. unfold Number.pad. rewrite length_app, repeat_length.
  pose proof (digits_of_length (S (Z.to_nat (Z.log2 n))) n [] w Hw Hn) as Hl.
  change (length (@nil N)) with 0%nat in Hl. unfold Number.digits. lia.
Qed.

Lemma iso_date_length y m d :
  0 <= y <= 9999 -> 0 <= m <= 11 -> 1 <= d <= 31 ->
  length (Date.iso_date y m d) = 10%nat.
Proof.
  intros Hy Hm Hd. unfold Date.iso_date, Date.iso_year.
  replace ((0 <=? y) && (y <=? 9999)) with true
    by (symmetry; apply andb_true_iff; split; apply Z.leb_le; lia).
  rewrite length_app. cbn [length]. rewrite length_app. cbn [length].
  rewrite !pad_length by (try (simpl; lia); lia). reflexivity.
Qed.

End DateFacts.

(** ** Random choice *)

Section PickFacts.

Lemma Qfloor_between x i :
  (inject_Z i <= x)%Q -> (x < inject_Z (i + 1))%Q -> Qfloor x = i.
Proof.
  intros Hlo Hhi.
  assert (H1 : i <= Qfloor x).
  { rewrite <- (Qfloor_Z i). apply Qfloor_resp_le. assumption. }
  assert (H2 : Qfloor x < i + 1).
  { rewrite Zlt_Qlt. eapply Qle_lt_trans; [apply Qfloor_le | assumption]. }
  lia.
Qed.

Lemma inject_Z_pos n : 0 < n -> (0 < inject_Z n)%Q.
Proof. intros Hn. change 0%Q with (inject_Z 0). rewrite <- Zlt_Qlt. assumption. Qed.

Lemma floor_scaled_range r n :
  unit_draw r -> 0 < n -> 0 <= floor_scaled r n < n.
Proof.
  intros [H0 H1] Hn. unfold floor_scaled.
  assert (Hpos : (0 < inject_Z n)%Q) by (apply inject_Z_pos; assumption).
  split.
  - change 0 with (Qfloor 0). apply Qfloor_resp_le.
    apply Qmult_le_0_compat; [assumption | apply Qlt_le_weak; assumption].
  - rewrite Zlt_Qlt. eapply Qle_lt_trans; [apply Qfloor_le|].
    assert (Hlt : (r * inject_Z n < 1 * inject_Z n)%Q)
      by (apply Qmult_lt_compat_r; assumption).
    rewrite Qmult_1_l in Hlt. exact Hlt.
Qed.

Lemma floor_scaled_slot (i n : nat) r :
  in_slot i n r -> (i < n)%nat -> floor_scaled r (Z.of_nat n) = Z.of_nat i.
Proof.
  intros [Hlo Hhi] Hi. unfold floor_scaled.
  assert (Hpos : (0 < inject_Z (Z.of_nat n))%Q) by (apply inject_Z_pos; lia).
  assert (Hne : ~ (inject_Z (Z.of_nat n) == 0)%Q)
    by (intros E; rewrite E in Hpos; apply (Qlt_irrefl 0), Hpos).
  apply Qfloor_between.
  - assert (E : (inject_Z (Z.of_nat i) / inject_Z (Z.of_nat n) * inject_Z (Z.of_nat n)
                  == inject_Z (Z.of_nat i))%Q) by (field; assumption).
    rewrite <- E.
    apply Qmult_le_compat_r; [assumption | apply Qlt_le_weak; assumption].
  - assert (E : (inject_Z (Z.of_nat i + 1) / inject_Z (Z.of_nat n)
                   * inject_Z (Z.of_nat n)
                  == inject_Z (Z.of_nat i + 1))%Q) by (field; assumption).
    rewrite <- E.
    apply Qmult_lt_compat_r; assumption.
Qed.

(** A slot lies inside the unit interval. *)
Lemma in_slot_unit_draw (i n : nat) r : in_slot i n r -> (i < n)%nat -> unit_draw r.
Proof.
  intros [Hlo Hhi] Hi.
  assert (Hpos : (0 < inject_Z (Z.of_nat n))%Q) by (apply inject_Z_pos; lia).
  split.
  - eapply Qle_trans; [|exact Hlo].
    apply Qle_shift_div_l; [assumption|].
    rewrite Qmult_0_l. change 0%Q with (inject_Z 0). rewrite <- Zle_Qle. lia.
  - eapply Qlt_le_trans; [exact Hhi|].
    apply Qle_shift_div_r; [assumption|].
    rewrite Qmult_1_l. rewrite <- Zle_Qle. lia.
Qed.

(** A draw selects an entry of a non-empty array. *)
Lemma pick_some {A} (arr : list A) r :
  unit_draw r -> arr <> [] ->
  exists i x, floor_scaled r (Z.of_nat (length arr)) = Z.of_nat i
              /\ arr !! i = Some x /\ pick arr r = Some x.
Proof.
  intros Hr Hne.
  assert (Hlen : 0 < Z.of_nat (length arr)) by (destruct arr; simpl in *; [congruence | lia]).
  pose proof (floor_scaled_range r _ Hr Hlen) as Hi.
  destruct (lookup_lt_is_Some_2 arr (Z.to_nat (floor_scaled r (Z.of_nat (length arr)))))
    as [x Hx]; [lia|].
  exists (Z.to_nat (floor_scaled r (Z.of_nat (length arr)))), x.
  split; [lia|]. split; [assumption|].
  unfold pick. destruct (Z.ltb_spec (floor_scaled r (Z.of_nat (length arr))) 0); [lia|].
  assumption.
Qed.

(** Every draw of the [i]-th slot selects the [i]-th entry. *)
Lemma pick_slot {A} (arr : list A) (i : nat) x r :
  arr !! i = Some x -> in_slot i (length arr) r -> pick arr r = Some x.
Proof.
  intros Hx Hr. pose proof (lookup_lt_Some _ _ _ Hx) as Hi.
  unfold pick. rewrite (floor_scaled_slot i (length arr) r Hr Hi).
  destruct (Z.ltb_spec (Z.of_nat i) 0); [lia|].
  rewrite Nat2Z.id. assumption.
Qed.

End PickFacts.

(** * The component *)

Section ComponentFacts.

Variable h : host.

Lemma mount_miss n1 n2 r1 r2 s :
  fetching s = NotStarted -> cache_hit (storage s) n1 = false ->
  exists url,
    url_of (build_query h n2 r1 r2) = Some url
    /\ mount h n1 n2 r1 r2 s
       = settle (AwaitingFetch (storage s !! CACHE_KEY))
                (send url (setIsLoading true s)).
Proof.
  intros Hs Hmiss. unfold mount. rewrite Hs.
  unfold cache_hit in Hmiss. rewrite Hmiss.
  destruct (url_of_total h n2 r1 r2) as [url Hurl].
  exists url. rewrite Hurl. split; reflexivity.
Qed.

Lemma mount_hit n1 n2 r1 r2 s :
  fetching s = NotStarted -> cache_hit (storage s) n1 = true ->
  mount h n1 n2 r1 r2 s
  = match parse_cached (storage s !! CACHE_KEY) with
    | Strings l => settle Fulfilled (setRepos l s)
    | ParseThrows => settle (Rejected JsonSyntaxError) s
    | NotStrings => settle IllTyped s
    end.
Proof.
  intros Hs Hhit. unfold mount. rewrite Hs.
  unfold cache_hit in Hhit. rewrite Hhit. reflexivity.
Qed.

(** A cached text that parses is not the empty string. *)
Lemma parsed_truthy c l : parse_cached (Some c) = Strings l -> truthy (Some c) = true.
Proof. destruct c; [discriminate | reflexivity]. Qed.

Lemma parseInt_truthy ts T : Number.parseInt ts = Some T -> truthy (Some ts) = true.
Proof. destruct ts; [discriminate | reflexivity]. Qed.

Lemma isCacheValid_parsed now ts T :
  Number.parseInt ts = Some T ->
  isCacheValid now (Some ts) = (now - T <? CACHE_DURATION).
Proof.
  intros HT. unfold isCacheValid. rewrite (parseInt_truthy ts T HT), HT. reflexivity.
Qed.

Lemma isCacheValid_later now now' ts :
  now <= now' -> isCacheValid now ts = false -> isCacheValid now' ts = false.
Proof.
  unfold isCacheValid. intros Hle.
  destruct (truthy ts); [|reflexivity]. cbn [andb].
  destruct ts as [ts|]; [|reflexivity].
  destruct (Number.parseInt ts) as [T|]; [|reflexivity].
  intros H%Z.ltb_ge. apply Z.ltb_ge. lia.
Qed.

Lemma cache_hit_later store now now' :
  now <= now' -> cache_hit store now = false -> cache_hit store now' = false.
Proof.
  unfold cache_hit. intros Hle [H|H]%andb_false_iff.
  - rewrite H. reflexivity.
  - rewrite (isCacheValid_later now now' _ Hle H). apply andb_false_r.
Qed.

Lemma filter_map_urls items :
  map html_url (List.filter (fun item => 0 <? open_issues_count item) items)
  = urls_with_open_issues items.
Proof.
  induction items as [|i items IH]; [reflexivity|].
  simpl. destruct (0 <? open_issues_count i); simpl; rewrite IH; reflexivity.
Qed.

Lemma consistent_initial store : consistent (initial store).
Proof. unfold consistent, initial; cbn. auto. Qed.

Lemma consistent_mount n1 n2 r1 r2 s :
  consistent s -> consistent (mount h n1 n2 r1 r2 s).
Proof.
  intros Hs. pose proof Hs as (Hload & Hwait & Hstart). unfold mount.
  destruct (fetching s) eqn:Hf; try assumption.
  specialize (Hstart eq_refl). specialize (Hwait eq_refl).
  destruct (truthy _ && isCacheValid _ _).
  - destruct (parse_cached _); close_consistent.
  - destruct (url_of _); close_consistent.
Qed.

Lemma consistent_fetch_settled res s :
  consistent s -> consistent (fetch_settled res s).
Proof.
  intros Hs. pose proof Hs as (Hload & Hwait & Hstart). unfold fetch_settled.
  destruct (fetching s) eqn:Hf; try assumption.
  specialize (Hwait eq_refl).
  destruct res as [status|].
  - destruct (res_ok status);
      [close_consistent|].
    destruct (_ && truthy cached).
    + destruct (parse_cached cached); close_consistent.
    + close_consistent.
  - close_consistent.
Qed.

Lemma consistent_json_settled b now s :
  consistent s -> consistent (json_settled b now s).
Proof.
  intros Hs. pose proof Hs as (Hload & Hwait & Hstart). unfold json_settled.
  destruct (fetching s) eqn:Hf; try assumption.
  destruct b; close_consistent.
Qed.

Lemma consistent_click r s : consistent s -> consistent (click h r s).
Proof.
  intros Hs. unfold click, handleClick.
  destruct (disabled s); [assumption|].
  destruct (has_window_open h); [|assumption].
  exact Hs.
Qed.

Lemma consistent_step s ev : consistent s -> consistent (step h s ev).
Proof.
  destruct ev; cbn [step];
    auto using consistent_mount, consistent_fetch_settled,
      consistent_json_settled, consistent_click.
Qed.

Lemma consistent_run evs : forall s, consistent s -> consistent (run_events h s evs).
Proof.
  induction evs as [|ev evs IH]; intros s Hs; [assumption|].
  apply IH, consistent_step, Hs.
Qed.


(** The later stretches of [fetchRepos] send nothing and open nothing. *)
Lemma fetch_settled_requests res s : requests (fetch_settled res s) = requests s.
Proof.
  unfold fetch_settled. destruct (fetching s); try reflexivity.
  destruct res as [status|]; [|reflexivity].
  destruct (res_ok status); [reflexivity|].
  destruct (_ && truthy cached); [|reflexivity].
  destruct (parse_cached cached); reflexivity.
Qed.

Lemma json_settled_requests b now s : requests (json_settled b now s) = requests s.
Proof.
  unfold json_settled. destruct (fetching s); try reflexivity.
  destruct b; reflexivity.
Qed.

Lemma fetch_settled_idle res s :
  (forall cached, fetching s <> AwaitingFetch cached) -> fetch_settled res s = s.
Proof.
  intros Hs. unfold fetch_settled. destruct (fetching s); try reflexivity.
  exfalso. eapply Hs. reflexivity.
Qed.

Lemma json_settled_idle b now s :
  fetching s <> AwaitingJson -> json_settled b now s = s.
Proof.
  intros Hs. unfold json_settled. destruct (fetching s); congruence.
Qed.

(** A run that finds a usable cache ends with the first stretch. *)
Lemma fetchRepos_hit e s :
  fetching s = NotStarted -> cache_hit (storage s) (now_check e) = true ->
  fetchRepos h e s
  = match parse_cached (storage s !! CACHE_KEY) with
    | Strings l => settle Fulfilled (setRepos l s)
    | ParseThrows => settle (Rejected JsonSyntaxError) s
    | NotStrings => settle IllTyped s
    end.
Proof.
  intros Hs Hhit. unfold fetchRepos. rewrite mount_hit by assumption.
  destruct (parse_cached _), (result e);
    repeat first [ rewrite json_settled_idle by (fields; discriminate)
                 | rewrite fetch_settled_idle by (fields; discriminate) ];
    reflexivity.
Qed.

(** A run that finds none sends one request and goes on from there. *)
Lemma fetchRepos_miss e s :
  fetching s = NotStarted -> cache_hit (storage s) (now_check e) = false ->
  exists url,
    url_of (build_query h (now_query e) (r_stars e) (r_page e)) = Some url
    /\ fetchRepos h e s
       = let s1 := settle (AwaitingFetch (storage s !! CACHE_KEY))
                          (send url (setIsLoading true s)) in
         match result e with
         | FetchFails => fetch_settled None s1
         | Response status b =>
             json_settled b (now_store e) (fetch_settled (Some status) s1)
         end.
Proof.
  intros Hs Hmiss.
  destruct (mount_miss (now_check e) (now_query e) (r_stars e) (r_page e) s Hs Hmiss)
    as (url & Hurl & Hmount).
  exists url. split; [assumption|]. unfold fetchRepos. rewrite Hmount. reflexivity.
Qed.

End ComponentFacts.

(** * The claims of the specification *)

(** C1 — Cache validity.  With a cache entry in the store (a list under
    [gitscovery_repos], a timestamp reading [T] under
    [gitscovery_timestamp]), a run of [fetchRepos] adopts the cached list
    and sends no request exactly when [now - T < 1800000]; otherwise it
    sends a request. *)
Theorem cache_validity (h : host) (e : run) (store : gmap string jsstring)
    (c ts : jsstring) (l : list jsstring) (T : Z) :
  store !! CACHE_KEY = Some c -> parse_cached (Some c) = Strings l ->
  store !! CACHE_TIMESTAMP_KEY = Some ts -> Number.parseInt ts = Some T ->
  let s := fetchRepos h e (initial store) in
  ((repos s = l /\ requests s = [] /\ fetching s = Fulfilled)
   <-> now_check e - T < 1800000)
  /\ (~ now_check e - T < 1800000 -> exists url, requests s = [url]).
Proof.
  intros Hc Hl Hts HT s.
  assert (Hhit : cache_hit store (now_check e) = (now_check e - T <? 1800000)).
  { unfold cache_hit. rewrite Hc, Hts, (parsed_truthy c l Hl).
    rewrite (isCacheValid_parsed _ ts T HT). reflexivity. }
  destruct (Z.ltb_spec (now_check e - T) 1800000) as [Hfresh|Hstale].
  - assert (Hs : s = settle Fulfilled (setRepos l (initial store))).
    { subst s. rewrite fetchRepos_hit by (reflexivity || exact Hhit).
      cbn [storage initial]. rewrite Hc, Hl. reflexivity. }
    rewrite Hs. fields. split; [|lia].
    split; [intros _; assumption | intros _; repeat split; reflexivity].
  - destruct (fetchRepos_miss h e (initial store) eq_refl Hhit) as (url & _ & Hs).
    assert (Hreq : requests s = [url]).
    { subst s. rewrite Hs. cbn zeta.
      destruct (result e);
        rewrite ?json_settled_requests, fetch_settled_requests; reflexivity. }
    split; [|intros _; exists url; assumption].
    split; [intros (_ & Hnone & _); congruence | lia].
Qed.

Lemma cache_validity_witness :
  let s := fetchRepos sample_host (sample_run FetchFails)
                      (initial (sample_store 1757937300000)) in
  ((repos s = sample_list /\ requests s = [] /\ fetching s = Fulfilled)
   <-> 1757937600000 - 1757937300000 < 1800000)
  /\ (~ 1757937600000 - 1757937300000 < 1800000 -> exists url, requests s = [url]).
Proof.
  apply (cache_validity sample_host (sample_run FetchFails)
           (sample_store 1757937300000) (JSON.stringify sample_list)
           (Number.toString 1757937300000) sample_list 1757937300000);
    vm_compute; reflexivity.
Defined.

(** C2 — Filtering and persistence.  After a successful response with an
    items array, the list is exactly the [html_url] of the items that have
    an open issue, in their order, and the store holds that list and the
    reading of the clock under the two cache keys, whatever it held there
    before. *)
Theorem success_filters_and_persists (h : host) (e : run) (s0 : state)
    (status : Z) (items : list item) :
  fetching s0 = NotStarted ->
  cache_hit (storage s0) (now_check e) = false ->
  result e = Response status (Items items) -> res_ok status = true ->
  let s := fetchRepos h e s0 in
  let validUrls := urls_with_open_issues items in
  repos s = validUrls
  /\ storage s = <[CACHE_TIMESTAMP_KEY := Number.toString (now_store e)]>
                   (<[CACHE_KEY := JSON.stringify validUrls]> (storage s0))
  /\ parse_cached (storage s !! CACHE_KEY) = Strings validUrls
  /\ (storage s !! CACHE_TIMESTAMP_KEY ≫= Number.parseInt) = Some (now_store e)
  /\ isLoading s = false /\ fetching s = Fulfilled.
Proof.
  intros Hs0 Hmiss Hres Hok s validUrls.
  destruct (fetchRepos_miss h e s0 Hs0 Hmiss) as (url & _ & Hs).
  assert (Hfinal : s = finally
            (setItem CACHE_TIMESTAMP_KEY (Number.toString (now_store e))
               (setItem CACHE_KEY (JSON.stringify validUrls)
                  (setRepos validUrls
                     (settle AwaitingJson
                        (settle (AwaitingFetch (storage s0 !! CACHE_KEY))
                           (send url (setIsLoading true s0)))))))).
  { subst s validUrls. rewrite Hs, Hres. cbn zeta.
    unfold fetch_settled. fields. rewrite Hok.
    unfold json_settled. fields. rewrite filter_map_urls. reflexivity. }
  rewrite Hfinal. fields. repeat split.
  - rewrite lookup_insert_ne by discriminate. rewrite lookup_insert_eq.
    apply parse_cached_stringify.
  - rewrite lookup_insert_eq. cbn. apply parseInt_toString.
Qed.

Lemma success_filters_and_persists_witness :
  let s := fetchRepos sample_host (sample_run (Response 200 (Items sample_items)))
                      (initial (sample_store 1757930000000)) in
  repos s = [js "u2"]
  /\ storage s = <[CACHE_TIMESTAMP_KEY := Number.toString 1757937600500]>
                   (<[CACHE_KEY := JSON.stringify [js "u2"]]>
                      (sample_store 1757930000000))
  /\ parse_cached (storage s !! CACHE_KEY) = Strings [js "u2"]
  /\ (storage s !! CACHE_TIMESTAMP_KEY ≫= Number.parseInt) = Some 1757937600500
  /\ isLoading s = false /\ fetching s = Fulfilled.
Proof.
  apply (success_filters_and_persists sample_host
           (sample_run (Response 200 (Items sample_items)))
           (initial (sample_store 1757930000000)) 200 sample_items);
    vm_compute; reflexivity.
Defined.

(** C3 — Rate-limit fallback.  When the request comes back with status 403
    or 429 and the store held a list (however old), the list becomes that
    cached list and the promise is fulfilled: a warning is logged, no
    error. *)
Theorem rate_limit_fallback (h : host) (e : run) (s0 : state)
    (c : jsstring) (l : list jsstring) (status : Z) (b : body) :
  fetching s0 = NotStarted ->
  storage s0 !! CACHE_KEY = Some c -> parse_cached (Some c) = Strings l ->
  cache_hit (storage s0) (now_check e) = false ->
  result e = Response status b -> status = 403 \/ status = 429 ->
  let s := fetchRepos h e s0 in
  repos s = l /\ fetching s = Fulfilled /\ isLoading s = false
  /\ console s = console s0 ++ [Warn (js "Rate limited, using cached data.")]
  /\ exists url, requests s = requests s0 ++ [url].
Proof.
  intros Hs0 Hc Hl Hmiss Hres Hstatus s.
  destruct (fetchRepos_miss h e s0 Hs0 Hmiss) as (url & _ & Hs).
  assert (Hfinal : s = finally
            (setRepos l
               (log (Warn (js "Rate limited, using cached data."))
                  (settle (AwaitingFetch (Some c))
                     (send url (setIsLoading true s0)))))).
  { subst s. rewrite Hs, Hres, Hc. cbn zeta.
    unfold fetch_settled. fields.
    rewrite (parsed_truthy c l Hl), Hl.
    destruct Hstatus as [-> | ->]; cbn [res_ok Z.leb Z.eqb andb orb];
      (rewrite json_settled_idle by (fields; discriminate)); reflexivity. }
  rewrite Hfinal. fields. repeat split. exists url. reflexivity.
Qed.

Lemma rate_limit_fallback_witness :
  let s := fetchRepos sample_host (sample_run (Response 429 NotJson))
                      (initial (sample_store 1757930000000)) in
  repos s = sample_list /\ fetching s = Fulfilled /\ isLoading s = false
  /\ console s = [] ++ [Warn (js "Rate limited, using cached data.")]
  /\ exists url, requests s = [] ++ [url].
Proof.
  apply (rate_limit_fallback sample_host (sample_run (Response 429 NotJson))
           (initial (sample_store 1757930000000)) (JSON.stringify sample_list)
           sample_list 429 NotJson);
    try (vm_compute; reflexivity).
  right. reflexivity.
Defined.

(** C4 — Disabled invariant.  In every state the button is enabled exactly
    when nothing is loading and the list holds at least one entry. *)
Theorem enabled_iff (s : state) :
  enabled s = true <-> isLoading s = false /\ (0 < length (repos s))%nat.
Proof.
  unfold enabled, disabled. rewrite negb_true_iff, orb_false_iff, Z.eqb_neq.
  split; intros [Hl Hn]; (split; [assumption | lia]).
Qed.

Lemma build_query_eq h now r_stars r_page :
  build_query h now r_stars r_page
  = Query (getRecentDate (tza h) now 6)
          (pick [500; 1000; 2000; 5000] r_stars)
          (option_map (fun m => m + 10000) (pick [500; 1000; 2000; 5000] r_stars))
          (floor_scaled r_page 10 + 1).
Proof. reflexivity. Qed.

Lemma recentDate_Query d lo hi p : recentDate (Query d lo hi p) = d.
Proof. reflexivity. Qed.

Lemma minStars_Query d lo hi p : minStars (Query d lo hi p) = lo.
Proof. reflexivity. Qed.

Lemma maxStars_Query d lo hi p : maxStars (Query d lo hi p) = hi.
Proof. reflexivity. Qed.

Lemma civil_eq t :
  civil t = (Date.YearFromTime t, Date.MonthFromTime t, Date.DateFromTime t).
Proof. reflexivity. Qed.

Lemma LocalTime_utc tza t : (forall u b, tza u b = 0) -> Date.LocalTime tza t = t.
Proof. intros Hz. unfold Date.LocalTime. rewrite Hz. apply Z.add_0_r. Qed.

Lemma UTC_utc tza t : (forall u b, tza u b = 0) -> Date.UTC tza t = t.
Proof. intros Hz. unfold Date.UTC. rewrite Hz. apply Z.sub_0_r. Qed.

(** C5, as stated, fails at the end of a long month.  A call on 2025-08-31
    (UTC host) yields the cutoff 2025-03-03: setting the month to February
    keeps day 31, which [MakeDay] carries into March.  The cutoff is no day
    of February 2025, the month six months before the call. *)
Lemma recent_date_end_of_month :
  Date.toISOString 1756598400000 = js "2025-08-31T00:00:00.000Z"
  /\ months_before 6 (civil 1756598400000) = (2025, 1, 31)
  /\ getRecentDate (fixed_offset 0) 1756598400000 6 = js "2025-03-03"
  /\ forall d, getRecentDate (fixed_offset 0) 1756598400000 6 <> Date.iso_date 2025 1 d.
Proof.
  repeat split; try (vm_compute; reflexivity).
  intros d H.
  apply (f_equal (fun s => nth 6 s 0%N)) in H.
  vm_compute in H. discriminate.
Qed.

(** C5, amended — Query construction.  For the chosen [minStars], one of
    500, 1000, 2000 and 5000, [maxStars] is [minStars + 10000]; and when the
    day of the month of the call exists in the month six months earlier, the
    cutoff is the instant at which the local clock of the host reads six
    calendar months before its reading at the call, same day of the month
    and same time of day, the reading being turned into an instant with the
    offset the host's zone gives for it (daylight saving included).  The
    query carries the UTC calendar date of that instant: ten characters
    [YYYY-MM-DD] for the years 0 to 9999, and in a host on UTC the date of
    the call six months earlier. *)
Theorem query_construction (h : host) (now : Z) (r_stars r_page : Q) (m : Z) :
  pick [500; 1000; 2000; 5000] r_stars = Some m ->
  day_exists (months_before 6 (civil (Date.LocalTime (tza h) now))) ->
  let q := build_query h now r_stars r_page in
  In m [500; 1000; 2000; 5000]
  /\ minStars q = Some m /\ maxStars q = Some (m + 10000)
  /\ exists wall cutoff,
       civil wall = months_before 6 (civil (Date.LocalTime (tza h) now))
       /\ Date.TimeWithinDay wall
          = Date.TimeWithinDay (Date.LocalTime (tza h) now)
       /\ cutoff = Date.UTC (tza h) wall
       /\ (tza h cutoff true = tza h wall false ->
           Date.LocalTime (tza h) cutoff = wall)
       /\ recentDate q = (let '(y, mo, d) := civil cutoff in Date.iso_date y mo d)
       /\ (0 <= Date.YearFromTime cutoff <= 9999 -> length (recentDate q) = 10%nat)
       /\ ((forall t b, tza h t b = 0) ->
           recentDate q
           = let '(y, mo, d) := months_before 6 (civil now) in Date.iso_date y mo d).
Proof.
  intros Hpick Hday q.
  assert (Hin : In m [500; 1000; 2000; 5000]).
  { unfold pick in Hpick. destruct (_ <? 0); [discriminate|].
    apply list_elem_of_In, (list_elem_of_lookup_2 _ _ _ Hpick). }
  split; [assumption|].
  subst q. rewrite build_query_eq, Hpick.
  rewrite minStars_Query, maxStars_Query, !recentDate_Query.
  split; [reflexivity|]. split; [reflexivity|].
  destruct (wall_months_before (Date.LocalTime (tza h) now) 6 Hday)
    as [Hcivil Htime].
  destruct (getRecentDate_wall (tza h) now 6) as [_ Hiso].
  revert Hcivil Htime Hiso. cbv zeta.
  generalize (Date.MakeDate
                (Date.MakeDay (Date.YearFromTime (Date.LocalTime (tza h) now))
                   (Date.MonthFromTime (Date.LocalTime (tza h) now) - 6)
                   (Date.DateFromTime (Date.LocalTime (tza h) now)))
                (Date.TimeWithinDay (Date.LocalTime (tza h) now))).
  intros wall Hcivil Htime Hiso.
  exists wall, (Date.UTC (tza h) wall).
  split; [assumption|]. split; [assumption|]. split; [reflexivity|].
  split; [intros Hsame; unfold Date.LocalTime, Date.UTC in *; lia|].
  rewrite Hiso, civil_eq.
  split; [reflexivity|]. split.
  - intros Hyear.
    apply iso_date_length;
      [assumption | apply MonthFromTime_range | apply DateFromTime_range].
  - intros Hutc. rewrite (LocalTime_utc _ now Hutc) in Hcivil.
    rewrite (UTC_utc _ wall Hutc), <- Hcivil, civil_eq. reflexivity.
Qed.

Lemma query_construction_witness :
  let q := build_query new_york_host 1765845000000 (1 # 2) (3 # 10) in
  In 2000 [500; 1000; 2000; 5000]
  /\ minStars q = Some 2000 /\ maxStars q = Some (2000 + 10000)
  /\ exists wall cutoff,
       civil wall
       = months_before 6 (civil (Date.LocalTime (tza new_york_host) 1765845000000))
       /\ Date.TimeWithinDay wall
          = Date.TimeWithinDay (Date.LocalTime (tza new_york_host) 1765845000000)
       /\ cutoff = Date.UTC (tza new_york_host) wall
       /\ (tza new_york_host cutoff true = tza new_york_host wall false ->
           Date.LocalTime (tza new_york_host) cutoff = wall)
       /\ recentDate q = (let '(y, mo, d) := civil cutoff in Date.iso_date y mo d)
       /\ (0 <= Date.YearFromTime cutoff <= 9999 -> length (recentDate q) = 10%nat)
       /\ ((forall t b, tza new_york_host t b = 0) ->
           recentDate q
           = let '(y, mo, d) := months_before 6 (civil 1765845000000) in
             Date.iso_date y mo d).
Proof.
  apply (query_construction new_york_host 1765845000000 (1 # 2) (3 # 10) 2000).
  - vm_compute. reflexivity.
  - vm_compute. split; discriminate.
Defined.

(** C6 — Failures.  When the request fails outside the rate-limit fallback
    (the network fails, the body is not JSON or has no items array, or the
    status is another error), the list and the store are left as they were,
    the error is logged, and the promise is fulfilled; and whatever a run
    meets, the loading flag is off when it ends. *)
Theorem failure_handling (h : host) (e : run) (s0 : state) :
  fetching s0 = NotStarted -> isLoading s0 = false ->
  let s := fetchRepos h e s0 in
  isLoading s = false
  /\ (cache_hit (storage s0) (now_check e) = false ->
      unhandled_failure e (storage s0 !! CACHE_KEY) = true ->
      repos s = repos s0 /\ storage s = storage s0 /\ fetching s = Fulfilled
      /\ exists err, console s = console s0 ++ [LogError err]).
Proof.
  intros Hs0 Hload s.
  destruct (cache_hit (storage s0) (now_check e)) eqn:Hhit.
  - split; [|discriminate].
    subst s. rewrite fetchRepos_hit by assumption.
    destruct (parse_cached _); fields; assumption.
  - destruct (fetchRepos_miss h e s0 Hs0 Hhit) as (url & _ & Hs).
    subst s. rewrite Hs. cbn zeta. unfold unhandled_failure.
    destruct (result e) as [|status b].
    + unfold fetch_settled. fields. split; [reflexivity|].
      intros _ _. repeat split. eexists; reflexivity.
    + unfold fetch_settled. fields.
      destruct (res_ok status).
      * unfold json_settled. fields.
        destruct b; fields; (split; [reflexivity|]); intros _ Hfail;
          try discriminate; repeat split; eexists; reflexivity.
      * destruct (((status =? 403) || (status =? 429)) && truthy _).
        -- split; [|intros _ [=]].
           destruct (parse_cached _);
             (rewrite json_settled_idle by (fields; discriminate)); reflexivity.
        -- rewrite json_settled_idle by (fields; discriminate). fields.
           split; [reflexivity|]. intros _ _. repeat split. eexists; reflexivity.
Qed.

Lemma failure_handling_witness :
  let s := fetchRepos sample_host (sample_run (Response 500 NotJson))
                      (initial (sample_store 1757930000000)) in
  isLoading s = false
  /\ (cache_hit (sample_store 1757930000000) 1757937600000 = false ->
      unhandled_failure (sample_run (Response 500 NotJson))
        (sample_store 1757930000000 !! CACHE_KEY) = true ->
      repos s = [] /\ storage s = sample_store 1757930000000
      /\ fetching s = Fulfilled
      /\ exists err, console s = [] ++ [LogError err]).
Proof.
  apply (failure_handling sample_host (sample_run (Response 500 NotJson))
           (initial (sample_store 1757930000000))); reflexivity.
Defined.




(** C8 — Random selection domain.  On a non-empty list every draw opens an
    entry of the list; and every entry has its own share of the draws, one
    [N]-th of the unit interval, on which it is the one opened. *)
Theorem selection_domain (h : host) (s : state) :
  has_window_open h = true -> repos s <> [] ->
  (forall r, unit_draw r ->
     exists u, In u (repos s)
               /\ handleClick h r s = window_open (Some u) (js "_blank") s)
  /\ (forall i u, repos s !! i = Some u ->
        (exists r, in_slot i (length (repos s)) r)
        /\ forall r, in_slot i (length (repos s)) r ->
             unit_draw r
             /\ handleClick h r s = window_open (Some u) (js "_blank") s).
Proof.
  intros Hopen Hne. split.
  - intros r Hr.
    destruct (pick_some (repos s) r Hr Hne) as (i & u & _ & Hi & Hpick).
    exists u. split; [apply list_elem_of_In, (list_elem_of_lookup_2 _ i), Hi|].
    unfold handleClick. rewrite Hopen, Hpick. reflexivity.
  - intros i u Hi. pose proof (lookup_lt_Some _ _ _ Hi) as Hlt.
    split.
    + exists (inject_Z (Z.of_nat i) / inject_Z (Z.of_nat (length (repos s))))%Q.
      split; [apply Qle_refl|].
      apply Qmult_lt_compat_r.
      * apply Qinv_lt_0_compat, inject_Z_pos. lia.
      * rewrite <- Zlt_Qlt. lia.
    + intros r Hr. split; [apply (in_slot_unit_draw i _ r Hr Hlt)|].
      unfold handleClick. rewrite Hopen, (pick_slot _ i u r Hi Hr). reflexivity.
Qed.

Lemma selection_domain_witness :
  let s := setRepos [js "u1"; js "u2"; js "u3"] (initial ∅) in
  (forall r, unit_draw r ->
     exists u, In u (repos s)
               /\ handleClick sample_host r s
                  = window_open (Some u) (js "_blank") s)
  /\ (forall i u, repos s !! i = Some u ->
        (exists r, in_slot i (length (repos s)) r)
        /\ forall r, in_slot i (length (repos s)) r ->
             unit_draw r
             /\ handleClick sample_host r s
                = window_open (Some u) (js "_blank") s).
Proof.
  apply (selection_domain sample_host
           (setRepos [js "u1"; js "u2"; js "u3"] (initial ∅))).
  - reflexivity.
  - simpl. discriminate.
Defined.

(** C9 — The fallback writes nothing.  A run whose response is not a
    success leaves the store as it found it, so after a 403/429 fallback a
    stale entry is still stale; the store changes only when a successful
    response with an items array has been read. *)
Theorem store_written_on_success_only (h : host) (e : run) (s0 : state) :
  fetching s0 = NotStarted ->
  let s := fetchRepos h e s0 in
  (forall status b,
      result e = Response status b -> status = 403 \/ status = 429 ->
      storage s = storage s0
      /\ forall later,
           now_check e <= later ->
           cache_hit (storage s0) (now_check e) = false ->
           cache_hit (storage s) later = false)
  /\ (storage s <> storage s0 ->
      exists status items,
        result e = Response status (Items items) /\ res_ok status = true).
Proof.
  intros Hs0 s.
  assert (Hstore : storage s = storage s0
                   \/ exists status items,
                        result e = Response status (Items items)
                        /\ res_ok status = true).
  { subst s. destruct (cache_hit (storage s0) (now_check e)) eqn:Hhit.
    - left. rewrite fetchRepos_hit by assumption.
      destruct (parse_cached _); reflexivity.
    - destruct (fetchRepos_miss h e s0 Hs0 Hhit) as (url & _ & Hs).
      rewrite Hs. cbn zeta. destruct (result e) as [|status b].
      + left. reflexivity.
      + unfold fetch_settled. fields. destruct (res_ok status) eqn:Hok.
        * destruct b; [left; reflexivity | left; reflexivity |].
          right. eauto.
        * left. destruct (_ && truthy _);
            [destruct (parse_cached _)|];
            (rewrite json_settled_idle by (fields; discriminate)); reflexivity. }
  split.
  - intros status b Hres Hstatus.
    assert (Hsame : storage s = storage s0).
    { destruct Hstore as [Hsame | (status' & items & Hres' & Hok)]; [assumption|].
      rewrite Hres in Hres'. injection Hres' as -> _.
      destruct Hstatus as [-> | ->]; discriminate. }
    split; [assumption|].
    intros later Hle Hstale. rewrite Hsame.
    apply (cache_hit_later _ (now_check e)); assumption.
  - intros Hchanged. destruct Hstore as [Hsame | Hsuccess]; [contradiction | assumption].
Qed.

Lemma store_written_on_success_only_witness :
  let s := fetchRepos sample_host (sample_run (Response 403 NotJson))
                      (initial (sample_store 1757930000000)) in
  (forall status b,
      Response 403 NotJson = Response status b -> status = 403 \/ status = 429 ->
      storage s = sample_store 1757930000000
      /\ forall later,
           1757937600000 <= later ->
           cache_hit (sample_store 1757930000000) 1757937600000 = false ->
           cache_hit (storage s) later = false)
  /\ (storage s <> sample_store 1757930000000 ->
      exists status items,
        Response 403 NotJson = Response status (Items items)
        /\ res_ok status = true).
Proof.
  apply (store_written_on_success_only sample_host
           (sample_run (Response 403 NotJson))
           (initial (sample_store 1757930000000))).
  reflexivity.
Defined.

(** C10 — A missing or unreadable timestamp.  When the store has no
    timestamp, or one that [parseInt] reads as [NaN], the validity check is
    false without raising anything, and the run goes on as with an expired
    cache: it raises the loading flag, sends exactly one request, the URL of
    the query it built, after those already sent, and waits for the answer;
    the list, the store and the console are as they were. *)
Theorem unreadable_timestamp_expires (h : host) (now n2 : Z) (r1 r2 : Q) (s : state) :
  fetching s = NotStarted ->
  (storage s !! CACHE_TIMESTAMP_KEY = None
   \/ exists ts, storage s !! CACHE_TIMESTAMP_KEY = Some ts
                 /\ Number.parseInt ts = None) ->
  isCacheValid now (storage s !! CACHE_TIMESTAMP_KEY) = false
  /\ exists url,
       url_of (build_query h n2 r1 r2) = Some url
       /\ mount h now n2 r1 r2 s
          = settle (AwaitingFetch (storage s !! CACHE_KEY))
                   (send url (setIsLoading true s))
       /\ requests (mount h now n2 r1 r2 s) = requests s ++ [url]
       /\ isLoading (mount h now n2 r1 r2 s) = true
       /\ fetching (mount h now n2 r1 r2 s)
          = AwaitingFetch (storage s !! CACHE_KEY)
       /\ repos (mount h now n2 r1 r2 s) = repos s
       /\ storage (mount h now n2 r1 r2 s) = storage s
       /\ console (mount h now n2 r1 r2 s) = console s
       /\ opened (mount h now n2 r1 r2 s) = opened s.
Proof.
  intros Hs Hts.
  assert (Hvalid : isCacheValid now (storage s !! CACHE_TIMESTAMP_KEY) = false).
  { destruct Hts as [-> | (ts & -> & Hnan)]; [reflexivity|].
    unfold isCacheValid. rewrite Hnan. apply andb_false_r. }
  split; [assumption|].
  destruct (mount_miss h now n2 r1 r2 s Hs) as (url & Hurl & Hm).
  - unfold cache_hit. rewrite Hvalid. apply andb_false_r.
  - exists url. split; [assumption|]. split; [assumption|].
    rewrite Hm. repeat split; reflexivity.
Qed.

Lemma unreadable_timestamp_witness :
  let s := initial (<[CACHE_TIMESTAMP_KEY := js "soon"]>
                      (<[CACHE_KEY := JSON.stringify sample_list]> ∅)) in
  let s' := mount sample_host 1757937600000 1757937600000 (1 # 2) (3 # 10) s in
  isCacheValid 1757937600000 (storage s !! CACHE_TIMESTAMP_KEY) = false
  /\ exists url,
       url_of (build_query sample_host 1757937600000 (1 # 2) (3 # 10)) = Some url
       /\ s' = settle (AwaitingFetch (storage s !! CACHE_KEY))
                      (send url (setIsLoading true s))
       /\ requests s' = requests s ++ [url]
       /\ isLoading s' = true
       /\ fetching s' = AwaitingFetch (storage s !! CACHE_KEY)
       /\ repos s' = repos s
       /\ storage s' = storage s
       /\ console s' = console s
       /\ opened s' = opened s.
Proof.
  apply (unreadable_timestamp_expires sample_host 1757937600000 1757937600000
           (1 # 2) (3 # 10)).
  - reflexivity.
  - right. exists (js "soon"). split; vm_compute; reflexivity.
Defined.

(** * Further properties of the component *)

(** ** The recency cutoff *)

Section CutoffFacts.

Lemma MakeDay_in_year y m d :
  0 <= m <= 11 -> Date.MakeDay y m d = first_of_month y m + d - 1.
Proof.
  intros Hm. unfold Date.MakeDay, first_of_month.
  rewrite Z.div_small, Z.add_0_r, Z.mod_small by lia. reflexivity.
Qed.

Lemma Day_civil t :
  Date.Day t
  = first_of_month (Date.YearFromTime t) (Date.MonthFromTime t)
    + Date.DateFromTime t - 1.
Proof. unfold first_of_month, Date.DateFromTime, Date.DayWithinYear. lia. Qed.

Lemma time_split t : t = Date.MakeDate (Date.Day t) (Date.TimeWithinDay t).
Proof.
  unfold Date.MakeDate, Date.Day, Date.TimeWithinDay, Date.msPerDay.
  Z.div_mod_to_equations. lia.
Qed.

(** Six months back is 181 to 184 days back, whatever the month. *)
Lemma six_months_in_days y m :
  0 <= m <= 11 ->
  let i := 12 * y + m - 6 in
  181 <= first_of_month y m - first_of_month (i / 12) (i mod 12) <= 184.
Proof.
  intros Hm i. subst i.
  destruct (Z.ltb_spec m 6) as [Hlo|Hhi].
  - replace ((12 * y + m - 6) / 12) with (y - 1) by (Z.div_mod_to_equations; lia).
    replace ((12 * y + m - 6) mod 12) with (m + 6) by (Z.div_mod_to_equations; lia).
    unfold first_of_month.
    pose proof (DayFromYear_succ (y - 1)) as Hy.
    replace (y - 1 + 1) with y in Hy by lia. rewrite DaysInYear_cases in Hy.
    pose proof (InLeapYear_cases y) as Hl. pose proof (InLeapYear_cases (y - 1)) as Hl'.
    revert Hy Hl Hl'.
    generalize (Date.InLeapYear y) as l, (Date.InLeapYear (y - 1)) as l',
               (Date.DayFromYear y) as a, (Date.DayFromYear (y - 1)) as b.
    intros l l' a b Hy Hl Hl'.
    assert (Hc : m = 0 \/ m = 1 \/ m = 2 \/ m = 3 \/ m = 4 \/ m = 5) by lia.
    destruct Hc as [->|[->|[->|[->|[->| ->]]]]];
      match goal with
      | |- context [?a + 6] => let v := eval vm_compute in (a + 6) in
                               change (a + 6) with v
      end; calendar; lia.
  - replace ((12 * y + m - 6) / 12) with y by (Z.div_mod_to_equations; lia).
    replace ((12 * y + m - 6) mod 12) with (m - 6) by (Z.div_mod_to_equations; lia).
    unfold first_of_month.
    pose proof (InLeapYear_cases y) as Hl. revert Hl.
    generalize (Date.InLeapYear y) as l, (Date.DayFromYear y) as a. intros l a Hl.
    assert (Hc : m = 6 \/ m = 7 \/ m = 8 \/ m = 9 \/ m = 10 \/ m = 11) by lia.
    destruct Hc as [->|[->|[->|[->|[->| ->]]]]];
      match goal with
      | |- context [?a - 6] => let v := eval vm_compute in (a - 6) in
                               change (a - 6) with v
      end; calendar; lia.
Qed.

Lemma wall_days_back t :
  let i := 12 * Date.YearFromTime t + Date.MonthFromTime t - 6 in
  t - Date.MakeDate
        (Date.MakeDay (Date.YearFromTime t) (Date.MonthFromTime t - 6)
                      (Date.DateFromTime t))
        (Date.TimeWithinDay t)
  = (first_of_month (Date.YearFromTime t) (Date.MonthFromTime t)
     - first_of_month (i / 12) (i mod 12)) * Date.msPerDay.
Proof.
  intros i.
  pose proof (months_before_range 6 (Date.YearFromTime t) (Date.MonthFromTime t)
                (Date.DateFromTime t)) as Hr.
  unfold months_before in Hr. fold i in Hr. destruct Hr as [Hm Hday].
  rewrite Hday, MakeDay_in_year by assumption.
  rewrite (time_split t) at 1. rewrite Day_civil.
  unfold Date.MakeDate. lia.
Qed.

End CutoffFacts.

(** X1: how far back the cutoff of [getRecentDate] lies, for every clock
    reading and every time zone, daylight saving included, also when the day
    of the month overflows.  The wall-clock reading the cutoff is set to is
    a whole number of days, between 181 and 184, before the wall-clock
    reading at the call; the two instants are that many days apart plus the
    difference between the zone's offset for the set reading and its offset
    at the call, so exactly that many days wherever the two offsets agree;
    and the string returned is the UTC calendar date of the cutoff. *)
Theorem cutoff_window (tza : Date.zone) (now : Z) :
  let cutoff := Date.setMonth tza now (Date.getMonth tza now - 6) in
  (exists k wall,
      181 <= k <= 184
      /\ cutoff = Date.UTC tza wall
      /\ Date.LocalTime tza now - wall = k * Date.msPerDay
      /\ now - cutoff = k * Date.msPerDay + (tza wall false - tza now true)
      /\ (tza wall false = tza now true -> now - cutoff = k * Date.msPerDay))
  /\ getRecentDate tza now 6
     = Date.iso_date (Date.YearFromTime cutoff) (Date.MonthFromTime cutoff)
                     (Date.DateFromTime cutoff).
Proof.
  intros cutoff. split; [|apply getRecentDate_iso].
  subst cutoff. rewrite setMonth_wall.
  pose proof (wall_days_back (Date.LocalTime tza now)) as Hback.
  pose proof (six_months_in_days (Date.YearFromTime (Date.LocalTime tza now))
                (Date.MonthFromTime (Date.LocalTime tza now))
                (MonthFromTime_range _)) as Hk.
  cbv zeta in Hback, Hk. unfold Date.getMonth.
  revert Hback Hk.
  generalize (Date.MakeDate
                (Date.MakeDay (Date.YearFromTime (Date.LocalTime tza now))
                   (Date.MonthFromTime (Date.LocalTime tza now) - 6)
                   (Date.DateFromTime (Date.LocalTime tza now)))
                (Date.TimeWithinDay (Date.LocalTime tza now))) as wall.
  intros wall Hback Hk.
  eexists. exists wall.
  split; [exact Hk|]. split; [reflexivity|]. split; [exact Hback|].
  unfold Date.LocalTime, Date.UTC in *. split; [|intros Hsame]; lia.
Qed.

(** ** The request *)

Section RequestFacts.

Lemma encode_app a : forall a' b b',
  is_ascii a = true ->
  URI.encodeURIComponent a = Some a' -> URI.encodeURIComponent b = Some b' ->
  URI.encodeURIComponent (a ++ b) = Some (a' ++ b').
Proof.
  induction a as [|c a IH]; intros a' b b' Ha Ea Eb.
  - injection Ea as <-. assumption.
  - rewrite is_ascii_cons in Ha. apply andb_true_iff in Ha as [Hc Ha].
    apply N.ltb_lt in Hc. destruct (ascii_not_surrogate c Hc) as [Hh Hl].
    cbn [app URI.encodeURIComponent] in *. rewrite Hh, Hl in *.
    destruct (URI.encodeURIComponent a) as [a0|] eqn:E0;
      [|destruct (URI.is_unreserved c); discriminate].
    rewrite (IH a0 b b' Ha eq_refl Eb).
    destruct (URI.is_unreserved c); injection Ea as <-; cbn [URI.prepend];
      rewrite <- ?app_assoc; reflexivity.
Qed.

Lemma plain_date_char_unreserved c : plain_date_char c -> URI.is_unreserved c = true.
Proof.
  intros [Hc | ->]; [|reflexivity].
  unfold is_decimal in Hc. unfold URI.is_unreserved.
  replace ((48 <=? Z.of_N c) && (Z.of_N c <=? 57)) with true; [reflexivity|].
  symmetry. apply andb_true_iff. split; apply Z.leb_le; lia.
Qed.

(** Digits and hyphens pass through [encodeURIComponent] unchanged. *)
Lemma encode_plain s :
  Forall plain_date_char s -> URI.encodeURIComponent s = Some s.
Proof.
  induction 1 as [|c s Hc _ IH]; [reflexivity|].
  cbn [URI.encodeURIComponent]. rewrite (plain_date_char_unreserved c Hc), IH.
  reflexivity.
Qed.

Lemma is_ascii_decimal_or_hyphen s : Forall plain_date_char s -> is_ascii s = true.
Proof.
  induction 1 as [|c s Hc _ IH]; [reflexivity|].
  rewrite is_ascii_cons, IH, andb_true_r. apply N.ltb_lt.
  destruct Hc as [Hc | ->]; [unfold is_decimal in Hc; lia | reflexivity].
Qed.

Lemma decimal_plain s : Forall is_decimal s -> Forall plain_date_char s.
Proof. apply List.Forall_impl. intros c Hc. left. assumption. Qed.

Lemma toString_nonneg n : 0 <= n -> Number.toString n = Number.digits n.
Proof.
  intros Hn. unfold Number.toString.
  destruct (Z.ltb_spec n 0); [lia | reflexivity].
Qed.

Lemma encode_toString n :
  0 <= n -> URI.encodeURIComponent (Number.toString n) = Some (Number.toString n).
Proof.
  intros Hn. rewrite toString_nonneg by assumption.
  apply encode_plain, decimal_plain, digits_decimal.
Qed.

Lemma iso_date_plain y m d :
  0 <= y <= 9999 -> Forall plain_date_char (Date.iso_date y m d).
Proof.
  intros Hy. unfold Date.iso_date, Date.iso_year.
  replace ((0 <=? y) && (y <=? 9999)) with true
    by (symmetry; apply andb_true_iff; split; apply Z.leb_le; lia).
  apply Forall_app; split; [apply decimal_plain, pad_decimal|].
  constructor; [right; reflexivity|].
  apply Forall_app; split; [apply decimal_plain, pad_decimal|].
  constructor; [right; reflexivity|].
  apply decimal_plain, pad_decimal.
Qed.

Lemma query_text date m :
  join_space (queryParts (Query date (Some m) (Some (m + 10000)) 0))
  = js "stars:" ++ Number.toString m ++ js ".." ++ Number.toString (m + 10000)
    ++ js " pushed:>" ++ date ++ js " archived:false is:public".
Proof.
  unfold queryParts, join_space, show. cbn [minStars maxStars recentDate].
  rewrite <- !app_assoc. reflexivity.
Qed.

Lemma queryParts_page date lo hi p :
  queryParts (Query date lo hi p) = queryParts (Query date lo hi 0).
Proof. reflexivity. Qed.

Lemma url_of_Query date m p :
  0 <= m -> Forall plain_date_char date ->
  url_of (Query date (Some m) (Some (m + 10000)) p) = Some (search_url m date p).
Proof.
  intros Hm Hdate. unfold url_of.
  rewrite queryParts_page, query_text.
  rewrite (encode_app (js "stars:") (js "stars%3A") _
             (Number.toString m ++ js ".." ++ Number.toString (m + 10000)
              ++ js "%20pushed%3A%3E" ++ date
              ++ js "%20archived%3Afalse%20is%3Apublic")); try reflexivity.
  apply encode_app; [apply is_ascii_toString | apply encode_toString; lia |].
  apply (encode_app (js "..") (js "..")); try reflexivity.
  apply encode_app; [apply is_ascii_toString | apply encode_toString; lia |].
  apply (encode_app (js " pushed:>") (js "%20pushed%3A%3E")); try reflexivity.
  apply encode_app; [| apply encode_plain; assumption | reflexivity].
  apply is_ascii_decimal_or_hyphen. assumption.
Qed.

End RequestFacts.

(** X2: the one request of a run.  When the cache is not used, the run
    sends exactly one request, to the search address with a star range
    [m..m + 10000] for one of the four values of [m], the cutoff date, 100
    results per page and a page between 1 and 10. *)
Theorem request_shape (h : host) (e : run) (s0 : state) :
  fetching s0 = NotStarted ->
  cache_hit (storage s0) (now_check e) = false ->
  unit_draw (r_stars e) -> unit_draw (r_page e) ->
  0 <= Date.YearFromTime
         (Date.setMonth (tza h) (now_query e)
            (Date.getMonth (tza h) (now_query e) - 6)) <= 9999 ->
  exists m p,
    In m [500; 1000; 2000; 5000] /\ 1 <= p <= 10
    /\ requests (fetchRepos h e s0)
       = requests s0
         ++ [search_url m (getRecentDate (tza h) (now_query e) 6) p].
Proof.
  intros Hs0 Hmiss Hstars Hpage Hyear.
  destruct (fetchRepos_miss h e s0 Hs0 Hmiss) as (url & Hurl & Hs).
  destruct (pick_some [500; 1000; 2000; 5000] (r_stars e) Hstars ltac:(discriminate))
    as (i & m & _ & Hi & Hpick).
  assert (Hin : In m [500; 1000; 2000; 5000])
    by (apply list_elem_of_In, (list_elem_of_lookup_2 _ i), Hi).
  assert (Hm : 0 <= m) by (simpl in Hin; lia).
  pose proof (floor_scaled_range (r_page e) 10 Hpage ltac:(lia)) as Hp.
  exists m, (floor_scaled (r_page e) 10 + 1).
  split; [assumption|]. split; [lia|].
  rewrite build_query_eq, Hpick in Hurl. cbn [option_map] in Hurl.
  rewrite url_of_Query in Hurl.
  - injection Hurl as <-. rewrite Hs. cbn zeta.
    destruct (result e);
      rewrite ?json_settled_requests, fetch_settled_requests; reflexivity.
  - assumption.
  - rewrite getRecentDate_iso. apply iso_date_plain. assumption.
Qed.

Lemma request_shape_witness :
  exists m p,
    In m [500; 1000; 2000; 5000] /\ 1 <= p <= 10
    /\ requests (fetchRepos sample_host (sample_run FetchFails) (initial ∅))
       = requests (initial ∅)
         ++ [search_url m (getRecentDate (tza sample_host)
                             (now_query (sample_run FetchFails)) 6) p].
Proof.
  apply (request_shape sample_host (sample_run FetchFails) (initial ∅)).
  - reflexivity.
  - reflexivity.
  - unfold unit_draw, Qle, Qlt. simpl. lia.
  - unfold unit_draw, Qle, Qlt. simpl. lia.
  - vm_compute. split; discriminate.
Defined.

(** ** Runs of [fetchRepos] *)

Section RunFacts.

Variable h : host.

(** The state a successful run ends in. *)
Lemma fetchRepos_success e s0 status items :
  fetching s0 = NotStarted -> cache_hit (storage s0) (now_check e) = false ->
  result e = Response status (Items items) -> res_ok status = true ->
  exists url,
    fetchRepos h e s0
    = State (urls_with_open_issues items) false
        (<[CACHE_TIMESTAMP_KEY := Number.toString (now_store e)]>
           (<[CACHE_KEY := JSON.stringify (urls_with_open_issues items)]>
              (storage s0)))
        (console s0) (requests s0 ++ [url]) (opened s0) Fulfilled.
Proof.
  intros Hs0 Hmiss Hres Hok.
  destruct (fetchRepos_miss h e s0 Hs0 Hmiss) as (url & _ & Hs).
  exists url. rewrite Hs, Hres. cbn zeta.
  unfold fetch_settled. fields. rewrite Hok.
  unfold json_settled. fields. rewrite filter_map_urls. reflexivity.
Qed.

(** The store a successful run leaves is a usable cache entry of its list,
    dated by the clock reading of line 151. *)
Lemma written_entry written l (store : gmap string jsstring) now :
  let store' := <[CACHE_TIMESTAMP_KEY := Number.toString written]>
                  (<[CACHE_KEY := JSON.stringify l]> store) in
  cache_hit store' now = (now - written <? CACHE_DURATION)
  /\ parse_cached (store' !! CACHE_KEY) = Strings l.
Proof.
  intros store'. subst store'. unfold cache_hit.
  rewrite lookup_insert_eq, lookup_insert_ne, lookup_insert_eq by discriminate.
  rewrite (isCacheValid_parsed now _ written (parseInt_toString written)).
  split; [reflexivity | apply parse_cached_stringify].
Qed.

Lemma fetchRepos_requests_hit e s :
  fetching s = NotStarted -> cache_hit (storage s) (now_check e) = true ->
  requests (fetchRepos h e s) = requests s.
Proof.
  intros Hs Hhit. rewrite fetchRepos_hit by assumption.
  destruct (parse_cached _); reflexivity.
Qed.

Lemma fetchRepos_requests_miss e s :
  fetching s = NotStarted -> cache_hit (storage s) (now_check e) = false ->
  exists url, requests (fetchRepos h e s) = requests s ++ [url].
Proof.
  intros Hs Hmiss. destruct (fetchRepos_miss h e s Hs Hmiss) as (url & _ & ->).
  exists url. cbn zeta.
  destruct (result e); rewrite ?json_settled_requests, fetch_settled_requests;
    reflexivity.
Qed.

End RunFacts.

(** X3: the promise of [fetchRepos] rejects in one case only: the cache is
    fresh and its text is not JSON (line 98 is outside the [try]).  Then
    nothing else has happened: no request, no log entry, the list and the
    loading flag as they were. *)
Theorem rejects_iff_fresh_cache_unparseable (h : host) (e : run)
    (store : gmap string jsstring) :
  let s := fetchRepos h e (initial store) in
  ((exists err, fetching s = Rejected err)
   <-> cache_hit store (now_check e) = true
       /\ parse_cached (store !! CACHE_KEY) = ParseThrows)
  /\ (forall err, fetching s = Rejected err ->
        s = settle (Rejected JsonSyntaxError) (initial store)).
Proof.
  intros s. subst s.
  destruct (cache_hit store (now_check e)) eqn:Hhit.
  - rewrite (fetchRepos_hit h e (initial store) eq_refl Hhit).
    cbn [storage initial].
    destruct (parse_cached (store !! CACHE_KEY)); fields.
    + split; [|intros err _; reflexivity].
      split; [intros _; split; reflexivity | intros _; eexists; reflexivity].
    + split; [|intros err [=]].
      split; [intros [err [=]] | intros [_ [=]]].
    + split; [|intros err [=]].
      split; [intros [err [=]] | intros [_ [=]]].
  - destruct (fetchRepos_miss h e (initial store) eq_refl Hhit) as (url & _ & ->).
    cbn zeta.
    assert (Hnot : forall err,
      fetching
        match result e with
        | FetchFails =>
            fetch_settled None
              (settle (AwaitingFetch (storage (initial store) !! CACHE_KEY))
                 (send url (setIsLoading true (initial store))))
        | Response status b =>
            json_settled b (now_store e)
              (fetch_settled (Some status)
                 (settle (AwaitingFetch (storage (initial store) !! CACHE_KEY))
                    (send url (setIsLoading true (initial store)))))
        end <> Rejected err).
    { intros err. destruct (result e) as [|status b]; unfold fetch_settled; fields.
      - discriminate.
      - destruct (res_ok status).
        + unfold json_settled; fields. destruct b; discriminate.
        + destruct (_ && truthy _); [destruct (parse_cached _)|];
            (rewrite json_settled_idle by (fields; discriminate));
            fields; discriminate. }
    split.
    + split; [intros [err Herr]; destruct (Hnot err Herr) | intros [[=] _]].
    + intros err Herr. destruct (Hnot err Herr).
Qed.

(** X4: a 403/429 answer over a cached text that is not JSON.  The fallback
    is attempted and fails inside the [try]: the warning and then the syntax
    error are logged, the list and the store stay as they were, the loading
    flag is cleared and the promise is fulfilled. *)
Theorem fallback_on_unparseable_cache (h : host) (e : run) (s0 : state)
    (c : jsstring) (status : Z) (b : body) :
  fetching s0 = NotStarted ->
  storage s0 !! CACHE_KEY = Some c -> c <> [] -> JSON.parse c = None ->
  cache_hit (storage s0) (now_check e) = false ->
  result e = Response status b -> status = 403 \/ status = 429 ->
  let s := fetchRepos h e s0 in
  repos s = repos s0 /\ storage s = storage s0
  /\ console s = console s0 ++ [Warn (js "Rate limited, using cached data.");
                                LogError JsonSyntaxError]
  /\ isLoading s = false /\ fetching s = Fulfilled.
Proof.
  intros Hs0 Hc Hne Hparse Hmiss Hres Hstatus s.
  destruct (fetchRepos_miss h e s0 Hs0 Hmiss) as (url & _ & Hs).
  subst s. rewrite Hs, Hres, Hc. cbn zeta.
  unfold fetch_settled. fields.
  assert (Htruthy : truthy (Some c) = true) by (destruct c; [congruence | reflexivity]).
  assert (Hthrows : parse_cached (Some c) = ParseThrows)
    by (unfold parse_cached; cbn [default from_option id]; rewrite Hparse; reflexivity).
  assert (Hbad : res_ok status = false)
    by (destruct Hstatus as [-> | ->]; reflexivity).
  assert (Hlimit : (status =? 403) || (status =? 429) = true)
    by (destruct Hstatus as [-> | ->]; reflexivity).
  rewrite Htruthy, Hthrows, Hbad, Hlimit. cbn [andb].
  rewrite json_settled_idle by (fields; discriminate). fields.
  rewrite <- app_assoc. repeat split.
Qed.

Lemma fallback_on_unparseable_cache_witness :
  let s0 := initial (<[CACHE_KEY := js "oops"]> (sample_store 1757930000000)) in
  let s := fetchRepos sample_host (sample_run (Response 429 NotJson)) s0 in
  repos s = repos s0 /\ storage s = storage s0
  /\ console s = console s0 ++ [Warn (js "Rate limited, using cached data.");
                                LogError JsonSyntaxError]
  /\ isLoading s = false /\ fetching s = Fulfilled.
Proof.
  apply (fallback_on_unparseable_cache sample_host
           (sample_run (Response 429 NotJson))
           (initial (<[CACHE_KEY := js "oops"]> (sample_store 1757930000000)))
           (js "oops") 429 NotJson);
    try (vm_compute; reflexivity).
  - discriminate.
  - right. reflexivity.
Defined.

(** X5: without a cached list (the key is absent or holds the empty string)
    the timestamp is not looked at: the run sends its request; and a 403/429
    answer is then an ordinary failure, logged as the API error. *)
Theorem no_cached_list_no_shortcut (h : host) (e : run) (s0 : state) :
  fetching s0 = NotStarted -> truthy (storage s0 !! CACHE_KEY) = false ->
  let s := fetchRepos h e s0 in
  (exists url, requests s = requests s0 ++ [url])
  /\ (forall status b,
        result e = Response status b -> status = 403 \/ status = 429 ->
        repos s = repos s0 /\ console s = console s0 ++ [LogError GitHubApiError]
        /\ isLoading s = false /\ fetching s = Fulfilled).
Proof.
  intros Hs0 Hnone s.
  assert (Hmiss : cache_hit (storage s0) (now_check e) = false)
    by (unfold cache_hit; rewrite Hnone; reflexivity).
  split; [apply fetchRepos_requests_miss; assumption|].
  intros status b Hres Hstatus.
  destruct (fetchRepos_miss h e s0 Hs0 Hmiss) as (url & _ & Hs).
  subst s. rewrite Hs, Hres. cbn zeta.
  unfold fetch_settled. fields.
  assert (Hbad : res_ok status = false)
    by (destruct Hstatus as [-> | ->]; reflexivity).
  rewrite Hnone, Hbad, andb_false_r.
  rewrite json_settled_idle by (fields; discriminate). fields.
  repeat split.
Qed.

Lemma no_cached_list_no_shortcut_witness :
  let s0 := initial (<[CACHE_TIMESTAMP_KEY := js "1757937300000"]> ∅) in
  let s := fetchRepos sample_host (sample_run (Response 403 NotJson)) s0 in
  (exists url, requests s = requests s0 ++ [url])
  /\ (forall status b,
        Response 403 NotJson = Response status b -> status = 403 \/ status = 429 ->
        repos s = repos s0 /\ console s = console s0 ++ [LogError GitHubApiError]
        /\ isLoading s = false /\ fetching s = Fulfilled).
Proof.
  apply (no_cached_list_no_shortcut sample_host (sample_run (Response 403 NotJson))
           (initial (<[CACHE_TIMESTAMP_KEY := js "1757937300000"]> ∅)));
    reflexivity.
Defined.

(** X6: what a successful run writes is what the next mount reads.  Mounting
    again over the store left by a successful run adopts the same list
    without a request while less than 1800000 ms have passed since the
    write, and sends a request from then on. *)
Theorem cache_round_trip (h : host) (e1 e2 : run) (s0 : state)
    (status : Z) (items : list item) :
  fetching s0 = NotStarted -> cache_hit (storage s0) (now_check e1) = false ->
  result e1 = Response status (Items items) -> res_ok status = true ->
  let s1 := fetchRepos h e1 s0 in
  let s2 := remount h e2 s1 in
  (now_check e2 - now_store e1 < 1800000 ->
   repos s2 = repos s1 /\ requests s2 = [] /\ fetching s2 = Fulfilled
   /\ storage s2 = storage s1)
  /\ (1800000 <= now_check e2 - now_store e1 -> exists url, requests s2 = [url]).
Proof.
  intros Hs0 Hmiss Hres Hok s1 s2.
  destruct (fetchRepos_success h e1 s0 status items Hs0 Hmiss Hres Hok) as (url & Hs1).
  subst s2. unfold remount. subst s1. rewrite Hs1. cbn [storage repos].
  destruct (written_entry (now_store e1) (urls_with_open_issues items) (storage s0)
              (now_check e2)) as [Hhit Hparse].
  split.
  - intros Hfresh.
    assert (Hhit' : cache_hit _ (now_check e2) = true)
      by (rewrite Hhit; apply Z.ltb_lt; exact Hfresh).
    rewrite (fetchRepos_hit h e2 (initial _) eq_refl Hhit').
    cbn [storage initial]. rewrite Hparse. fields. repeat split.
  - intros Hstale.
    assert (Hhit' : cache_hit _ (now_check e2) = false)
      by (rewrite Hhit; apply Z.ltb_ge; exact Hstale).
    apply (fetchRepos_requests_miss h e2 (initial _) eq_refl Hhit').
Qed.

Lemma cache_round_trip_witness :
  let s1 := fetchRepos sample_host (sample_run (Response 200 (Items sample_items)))
                       (initial ∅) in
  let s2 := remount sample_host (sample_run FetchFails) s1 in
  (now_check (sample_run FetchFails)
     - now_store (sample_run (Response 200 (Items sample_items))) < 1800000 ->
   repos s2 = repos s1 /\ requests s2 = [] /\ fetching s2 = Fulfilled
   /\ storage s2 = storage s1)
  /\ (1800000 <= now_check (sample_run FetchFails)
        - now_store (sample_run (Response 200 (Items sample_items))) ->
      exists url, requests s2 = [url]).
Proof.
  apply (cache_round_trip sample_host
           (sample_run (Response 200 (Items sample_items)))
           (sample_run FetchFails) (initial ∅) 200 sample_items);
    reflexivity.
Defined.

Section FilterFacts.

Lemma urls_sublist items : sublist (urls_with_open_issues items) (map html_url items).
Proof.
  induction items as [|i items IH]; simpl; [constructor|].
  destruct (0 <? open_issues_count i); [apply sublist_skip | apply sublist_cons];
    assumption.
Qed.

Lemma urls_In items u :
  In u (urls_with_open_issues items)
  <-> exists i, In i items /\ 0 < open_issues_count i /\ html_url i = u.
Proof.
  induction items as [|i items IH]; simpl.
  - split; [tauto | intros (i & [] & _)].
  - destruct (Z.ltb_spec 0 (open_issues_count i)) as [Hpos|Hzero]; simpl; rewrite IH.
    + split.
      * intros [<- | (j & Hj & Hc & Hu)]; [exists i; auto | exists j; auto].
      * intros (j & [<- | Hj] & Hc & Hu); [left; assumption | right; exists j; auto].
    + split.
      * intros (j & Hj & Hc & Hu). exists j; auto.
      * intros (j & [<- | Hj] & Hc & Hu); [lia | exists j; auto].
Qed.

Lemma urls_none items :
  Forall (fun i => open_issues_count i <= 0) items ->
  urls_with_open_issues items = [].
Proof.
  induction 1 as [|i items Hi _ IH]; [reflexivity|].
  simpl. destruct (Z.ltb_spec 0 (open_issues_count i)); [lia | assumption].
Qed.

End FilterFacts.

(** X7: the list a successful run shows.  It holds the address of an item
    exactly when that item has an open issue, it is a subsequence of the
    addresses of the response (order and repetitions kept), and so it is
    never longer than the response. *)
Theorem shown_list_characterised (h : host) (e : run) (s0 : state)
    (status : Z) (items : list item) :
  fetching s0 = NotStarted -> cache_hit (storage s0) (now_check e) = false ->
  result e = Response status (Items items) -> res_ok status = true ->
  let s := fetchRepos h e s0 in
  (forall u, In u (repos s)
             <-> exists i, In i items /\ 0 < open_issues_count i /\ html_url i = u)
  /\ sublist (repos s) (map html_url items)
  /\ (length (repos s) <= length items)%nat.
Proof.
  intros Hs0 Hmiss Hres Hok s.
  destruct (fetchRepos_success h e s0 status items Hs0 Hmiss Hres Hok) as (url & Hs).
  subst s. rewrite Hs. cbn [repos].
  split; [intros u; apply urls_In|].
  pose proof (urls_sublist items) as Hsub.
  split; [assumption|].
  apply sublist_length in Hsub. rewrite length_map in Hsub. assumption.
Qed.

Lemma shown_list_characterised_witness :
  let s := fetchRepos sample_host (sample_run (Response 200 (Items sample_items)))
                      (initial ∅) in
  (forall u, In u (repos s)
             <-> exists i, In i sample_items /\ 0 < open_issues_count i
                           /\ html_url i = u)
  /\ sublist (repos s) (map html_url sample_items)
  /\ (length (repos s) <= length sample_items)%nat.
Proof.
  apply (shown_list_characterised sample_host
           (sample_run (Response 200 (Items sample_items))) (initial ∅)
           200 sample_items);
    reflexivity.
Defined.

(** X8: a successful response in which no item has an open issue (an empty
    response included) leaves the button disabled and still writes the
    cache, with the empty list; mounting again within the next 1800000 ms
    sends no request and leaves the button disabled. *)
Theorem empty_result_is_cached (h : host) (e1 : run) (s0 : state)
    (status : Z) (items : list item) :
  fetching s0 = NotStarted -> cache_hit (storage s0) (now_check e1) = false ->
  result e1 = Response status (Items items) -> res_ok status = true ->
  Forall (fun i => open_issues_count i <= 0) items ->
  let s1 := fetchRepos h e1 s0 in
  enabled s1 = false
  /\ storage s1 !! CACHE_KEY = Some (js "[]")
  /\ forall e2, now_check e2 - now_store e1 < 1800000 ->
       requests (remount h e2 s1) = [] /\ enabled (remount h e2 s1) = false.
Proof.
  intros Hs0 Hmiss Hres Hok Hnone s1.
  destruct (fetchRepos_success h e1 s0 status items Hs0 Hmiss Hres Hok) as (url & Hs1).
  subst s1. rewrite Hs1, (urls_none items Hnone).
  split; [reflexivity|]. split.
  - cbn [storage]. rewrite lookup_insert_ne by discriminate.
    rewrite lookup_insert_eq. reflexivity.
  - intros e2 Hfresh. unfold remount. cbn [storage].
    destruct (written_entry (now_store e1) [] (storage s0) (now_check e2))
      as [Hhit Hparse].
    assert (Hhit' : cache_hit _ (now_check e2) = true)
      by (rewrite Hhit; apply Z.ltb_lt; exact Hfresh).
    rewrite (fetchRepos_hit h e2 (initial _) eq_refl Hhit').
    cbn [storage initial]. rewrite Hparse. split; reflexivity.
Qed.

Lemma empty_result_is_cached_witness :
  let s1 := fetchRepos sample_host
              (sample_run (Response 200 (Items [Item 0 (js "u1")]))) (initial ∅) in
  enabled s1 = false
  /\ storage s1 !! CACHE_KEY = Some (js "[]")
  /\ forall e2,
       now_check e2
         - now_store (sample_run (Response 200 (Items [Item 0 (js "u1")])))
       < 1800000 ->
       requests (remount sample_host e2 s1) = []
       /\ enabled (remount sample_host e2 s1) = false.
Proof.
  apply (empty_result_is_cached sample_host
           (sample_run (Response 200 (Items [Item 0 (js "u1")]))) (initial ∅)
           200 [Item 0 (js "u1")]);
    try reflexivity.
  repeat constructor. simpl. lia.
Defined.

(** ** Histories *)

Section HistoryFacts.

Variable h : host.

Lemma run_events_invariant (P : state -> Prop) :
  (forall s ev, P s -> P (step h s ev)) ->
  forall evs s, P s -> P (run_events h s evs).
Proof.
  intros Hstep. induction evs as [|ev evs IH]; intros s Hs; [assumption|].
  apply IH, Hstep, Hs.
Qed.

Lemma mount_cases n1 n2 r1 r2 s :
  fetching s = NotStarted ->
  (exists url, mount h n1 n2 r1 r2 s
               = settle (AwaitingFetch (storage s !! CACHE_KEY))
                   (send url (setIsLoading true s)))
  \/ (exists t, in_flight t = false /\ t <> NotStarted
                /\ (mount h n1 n2 r1 r2 s = settle t s
                    \/ exists l, mount h n1 n2 r1 r2 s
                                 = settle t (setRepos l s))).
Proof.
  intros Hs. destruct (cache_hit (storage s) n1) eqn:Hhit.
  - right. rewrite mount_hit by assumption.
    destruct (parse_cached _).
    + exists (Rejected JsonSyntaxError). repeat split; [discriminate | left; reflexivity].
    + exists IllTyped. repeat split; [discriminate | left; reflexivity].
    + exists Fulfilled. repeat split; [discriminate | right; eexists; reflexivity].
  - left. destruct (mount_miss h n1 n2 r1 r2 s Hs Hhit) as (url & _ & Hm).
    exists url. assumption.
Qed.

(** What the second and third stretches can do to a state. *)
Lemma fetch_settled_cases res s :
  fetch_settled res s = s
  \/ (exists cached, fetching s = AwaitingFetch cached)
     /\ opened (fetch_settled res s) = opened s
     /\ requests (fetch_settled res s) = requests s
     /\ ((isLoading (fetch_settled res s) = isLoading s
          /\ fetching (fetch_settled res s) = AwaitingJson)
         \/ (isLoading (fetch_settled res s) = false
             /\ in_flight (fetching (fetch_settled res s)) = false))
     /\ fetching (fetch_settled res s) <> NotStarted.
Proof.
  unfold fetch_settled. destruct (fetching s) eqn:Hf; auto.
  right. split; [eauto|].
  destruct res as [status|];
    [|fields; repeat split; try reflexivity; try discriminate; right; split; reflexivity].
  destruct (res_ok status);
    [fields; repeat split; try reflexivity; try discriminate; left; split; reflexivity|].
  destruct (_ && truthy cached); [destruct (parse_cached cached)|];
    fields; repeat split; try reflexivity; try discriminate;
    right; split; reflexivity.
Qed.

Lemma json_settled_cases b now s :
  json_settled b now s = s
  \/ fetching s = AwaitingJson
     /\ opened (json_settled b now s) = opened s
     /\ requests (json_settled b now s) = requests s
     /\ isLoading (json_settled b now s) = false
     /\ fetching (json_settled b now s) = Fulfilled.
Proof.
  unfold json_settled. destruct (fetching s) eqn:Hf; auto.
  right. destruct b; fields; repeat split.
Qed.


Lemma click_cases r s :
  click h r s = s
  \/ (enabled s = true /\ has_window_open h = true
      /\ click h r s = window_open (pick (repos s) r) (js "_blank") s).
Proof.
  unfold click, handleClick, enabled.
  destruct (disabled s); [left; reflexivity|].
  destruct (has_window_open h); [right; repeat split | left; reflexivity].
Qed.

Lemma sent_once_step s ev : sent_once s -> sent_once (step h s ev).
Proof.
  intros [Hnone Hone]. destruct ev as [n1 n2 r1 r2|res|b now|r]; cbn [step].
  - destruct (fetching s) eqn:Hf;
      try (unfold mount; rewrite Hf; split; [rewrite Hf; discriminate | assumption]).
    specialize (Hnone eq_refl).
    destruct (mount_cases n1 n2 r1 r2 s Hf)
      as [(url & ->) | (t & _ & Ht & [-> | (l & ->)])];
      split; fields; rewrite ?Hnone; try (intros; congruence); simpl; lia.
  - destruct (fetch_settled_cases res s) as [-> | (_ & _ & Hr & _ & Hf)];
      [split; assumption|].
    split; [intros; contradiction | rewrite Hr; assumption].
  - destruct (json_settled_cases b now s) as [-> | (_ & _ & Hr & _ & Hf)];
      [split; assumption|].
    split; [rewrite Hf; discriminate | rewrite Hr; assumption].
  - destruct (click_cases r s) as [-> | (_ & _ & ->)]; split; assumption.
Qed.

Lemma loading_tracks_step s ev : loading_tracks s -> loading_tracks (step h s ev).
Proof.
  unfold loading_tracks. intros Hs.
  destruct ev as [n1 n2 r1 r2|res|b now|r]; cbn [step].
  - destruct (fetching s) eqn:Hf;
      try (unfold mount; rewrite Hf; rewrite Hf; assumption).
    destruct (mount_cases n1 n2 r1 r2 s Hf)
      as [(url & ->) | (t & Ht & _ & [-> | (l & ->)])];
      fields; rewrite ?Ht; (reflexivity || assumption).
  - destruct (fetch_settled_cases res s)
      as [-> | ((cached & Hc) & _ & _ & [[Hl Hf] | [Hl Hf]] & _)];
      [assumption | | rewrite Hl, Hf; reflexivity].
    rewrite Hl, Hf, Hs, Hc. reflexivity.
  - destruct (json_settled_cases b now s) as [-> | (_ & _ & _ & Hl & Hf)];
      [assumption|]. rewrite Hl, Hf. reflexivity.
  - destruct (click_cases r s) as [-> | (_ & _ & ->)]; assumption.
Qed.

Lemma mount_opened n1 n2 r1 r2 s : opened (mount h n1 n2 r1 r2 s) = opened s.
Proof.
  destruct (fetching s) eqn:Hf; try (unfold mount; rewrite Hf; reflexivity).
  destruct (mount_cases n1 n2 r1 r2 s Hf)
    as [(url & ->) | (t & _ & _ & [-> | (l & ->)])]; reflexivity.
Qed.

Lemma step_opened s ev :
  opened (step h s ev) = opened s
  \/ exists r u, ev = Click r /\ enabled s = true
                 /\ opened (step h s ev) = opened s ++ [(u, js "_blank")]
                 /\ u = pick (repos s) r.
Proof.
  destruct ev as [n1 n2 r1 r2|res|b now|r]; cbn [step].
  - left. apply mount_opened.
  - left. destruct (fetch_settled_cases res s) as [-> | (_ & Ho & _)];
      [reflexivity | assumption].
  - left. destruct (json_settled_cases b now s) as [-> | (_ & Ho & _)];
      [reflexivity | assumption].
  - destruct (click_cases r s) as [-> | (He & _ & ->)]; [left; reflexivity|].
    right. exists r, (pick (repos s) r). repeat split. assumption.
Qed.

Lemma opened_count evs : forall s,
  (length (opened (run_events h s evs)) <= length (opened s) + clicks evs)%nat
  /\ (Forall (fun call => snd call = js "_blank") (opened s) ->
      Forall (fun call => snd call = js "_blank") (opened (run_events h s evs))).
Proof.
  induction evs as [|ev evs IH]; intros s; [split; [simpl; lia | auto]|].
  change (run_events h s (ev :: evs)) with (run_events h (step h s ev) evs).
  destruct (IH (step h s ev)) as [Hlen Hall].
  destruct (step_opened s ev) as [Ho | (r & u & -> & _ & Ho & _)]; rewrite Ho in *.
  - split; [|assumption].
    unfold clicks in *. simpl. destruct (is_click ev); simpl; lia.
  - split.
    + rewrite length_app in Hlen. unfold clicks in *. simpl in *. lia.
    + intros Hs. apply Hall, Forall_app. split; [assumption|].
      constructor; [reflexivity | constructor].
Qed.





End HistoryFacts.

(** X9: one request per mount.  Whatever events follow one another, the
    component sends at most one request: a failure is not retried and a
    click fetches nothing. *)
Theorem at_most_one_request (h : host) (store : gmap string jsstring)
    (evs : list event) :
  (length (requests (run_events h (initial store) evs)) <= 1)%nat.
Proof.
  apply (run_events_invariant h sent_once).
  - intros s ev. apply sent_once_step.
  - split; [reflexivity | simpl; lia].
Qed.

(** X10: the button reads [[Loading]] exactly while the request or its body
    is pending; during that time the list is still empty and the button is
    disabled. *)
Theorem loading_while_pending (h : host) (store : gmap string jsstring)
    (evs : list event) :
  let s := run_events h (initial store) evs in
  (label s = js "[Loading]" <-> in_flight (fetching s) = true)
  /\ (in_flight (fetching s) = true -> repos s = [] /\ enabled s = false).
Proof.
  intros s.
  assert (Htrack : loading_tracks s).
  { apply (run_events_invariant h loading_tracks).
    - intros s' ev. apply loading_tracks_step.
    - reflexivity. }
  assert (Hcons : consistent s) by (apply consistent_run, consistent_initial).
  unfold loading_tracks in Htrack. unfold label. rewrite Htrack.
  split.
  - destruct (in_flight (fetching s)); split; try reflexivity; discriminate.
  - intros Hfly. destruct Hcons as (Hload & _ & _).
    rewrite Hfly in Htrack. split; [apply Hload, Htrack|].
    unfold enabled, disabled. rewrite Htrack. reflexivity.
Qed.

(** X11: windows are opened by clicks only.  Over any history, no more
    windows have been opened than there were clicks, and every one was
    opened with the target [_blank]. *)
Theorem windows_opened_by_clicks (h : host) (store : gmap string jsstring)
    (evs : list event) :
  let s := run_events h (initial store) evs in
  (length (opened s) <= clicks evs)%nat
  /\ Forall (fun call => snd call = js "_blank") (opened s).
Proof.
  intros s. destruct (opened_count h evs (initial store)) as [Hlen Hall].
  split; [exact Hlen | apply Hall; constructor].
Qed.


